(** * The IPPool controller (controllers/ippool_controller.go)

    A shallow embedding of the reconciliation loop of the IPPool
    controller, of its two claim-to-pool mappers and of its retry
    classifier, together with the properties the specification states
    about them.

    The controller talks to three collaborators that are interfaces in
    the Go code: the object store ([client.Client]), the manager factory
    ([ipam.ManagerFactoryInterface]) and the pool manager
    ([ipam.IPPoolManagerInterface]).  They are records of functions here.
    The in-memory pool is shared between the controller, the manager and
    the patch helper through one pointer; it is the [pool] component of
    the state every operation threads, and every store call and manager
    invocation is logged next to a snapshot of that object. *)

From Stdlib Require Import ZArith String List Bool Lia.
From stdpp Require Import base option gmap strings list.

Local Open Scope string_scope.
Local Open Scope list_scope.
Local Open Scope Z_scope.

(** ** Go values used by the controller *)

(** [time.Duration] counts nanoseconds in an [int64]; the controller only
    builds the constant [requeueAfter] and copies durations around. *)
Definition Duration : Type := Z.

(** An instant ([metav1.Time]); the zero instant is [0]. *)
Definition Time : Type := Z.

Module time.
Definition Second : Duration := 1000000000.
End time.

(** Go [error] values.  [errors.Wrap] layers a message over a cause, and
    [errors.As] walks the causes.  A value either carries the
    [ipam.HasRequeueAfterError] capability (it answers [GetRequeueAfter])
    or it does not. *)
Inductive error : Type :=
| errorString (msg : string)
| RequeueAfterError (RequeueAfter : Duration)
| withMessage (cause : error) (msg : string).

Module errors.
(** [errors.Wrap(err, message)] for a non-nil [err]. *)
Definition Wrap (err : error) (message : string) : error :=
  withMessage err message.

(** [errors.Wrapf(err, format)] without arguments. *)
Definition Wrapf (err : error) (format : string) : error :=
  withMessage err format.

(** [errors.As(err, &requeueErr)] with a target of interface type
    [ipam.HasRequeueAfterError]: the first value of the chain that has
    the capability, through its [GetRequeueAfter]. *)
Fixpoint As (err : error) : option Duration :=
  match err with
  | errorString _ => None
  | RequeueAfterError d => Some d
  | withMessage cause _ => As cause
  end.
End errors.

(** ** API objects *)

Module types.
Record NamespacedName : Type :=
  { Namespace : string; Name : string }.
End types.

Module ctrl.
Record Request : Type :=
  { NamespacedName : types.NamespacedName }.

Record Result : Type :=
  { Requeue : bool; RequeueAfter : Duration }.

(** [ctrl.Result{}] *)
Definition empty : Result :=
  {| Requeue := false; RequeueAfter := 0 |}.
End ctrl.

Module metav1.
Record ObjectMeta : Type :=
  { Name : string;
    Namespace : string;
    (** [map[string]string]; [None] is the nil map *)
    Labels : option (gmap string string);
    Annotations : gmap string string;
    Finalizers : list string;
    (** [*metav1.Time]; [None] is the nil pointer *)
    DeletionTimestamp : option Time }.

(** [IsZero] on a [metav1.Time] pointer: nil, or the zero instant. *)
Definition IsZero (t : option Time) : bool :=
  match t with
  | None => true
  | Some i => Z.eqb i 0
  end.

Definition zero : ObjectMeta :=
  {| Name := ""; Namespace := ""; Labels := None; Annotations := ∅;
     Finalizers := []; DeletionTimestamp := None |}.
End metav1.

Module clusterv1.
Record ClusterSpec : Type := { Paused : bool }.

Record Cluster : Type :=
  { ObjectMeta : metav1.ObjectMeta; Spec : ClusterSpec }.

(** [&clusterv1.Cluster{}] *)
Definition zero : Cluster :=
  {| ObjectMeta := metav1.zero; Spec := {| Paused := false |} |}.
End clusterv1.

Module ipamv1.
Record IPPoolSpec : Type :=
  { (** [*string]; [None] is the nil pointer *)
    ClusterName : option string }.

(** The allocation bookkeeping the pool manager keeps on the pool:
    claim name to address. *)
Record IPPoolStatus : Type :=
  { Allocations : gmap string string }.

Record IPPool : Type :=
  { ObjectMeta : metav1.ObjectMeta;
    Spec : IPPoolSpec;
    Status : IPPoolStatus }.

(** [&ipamv1.IPPool{}] *)
Definition zero : IPPool :=
  {| ObjectMeta := metav1.zero;
     Spec := {| ClusterName := None |};
     Status := {| Allocations := ∅ |} |}.

Record ObjectReference : Type :=
  { Name : string; Namespace : string }.

Record IPClaimSpec : Type := { Pool : ObjectReference }.

Record IPClaim : Type :=
  { ClaimMeta : metav1.ObjectMeta; ClaimSpec : IPClaimSpec }.
End ipamv1.

Module capipamv1.
(** [corev1.TypedLocalObjectReference]: a reference inside the
    referrer's namespace; it has no namespace field. *)
Record TypedLocalObjectReference : Type :=
  { APIGroup : option string; Kind : string; Name : string }.

Record IPAddressClaimSpec : Type :=
  { PoolRef : TypedLocalObjectReference }.

Record IPAddressClaim : Type :=
  { ObjectMeta : metav1.ObjectMeta; Spec : IPAddressClaimSpec }.
End capipamv1.

Module client.
(** [client.Object]: the dynamic type of the object a watch delivers. *)
Inductive Object : Type :=
| IPClaim (o : ipamv1.IPClaim)
| IPAddressClaim (o : capipamv1.IPAddressClaim)
| IPPool (o : ipamv1.IPPool)
| Cluster (o : clusterv1.Cluster).

Definition ObjectKey : Type := types.NamespacedName.

(** [client.Client], as the controller uses it: reads of a pool and of
    a cluster by key, the diff-based patch of a pool (original,
    modified), and whether the client's scheme lets a patch helper be
    built for a pool. *)
Record Client : Type :=
  { Get_IPPool : ObjectKey -> ipamv1.IPPool + error;
    Get_Cluster : ObjectKey -> clusterv1.Cluster + error;
    Patch_IPPool : ipamv1.IPPool -> ipamv1.IPPool -> option error;
    Scheme : ipamv1.IPPool -> option error }.
End client.

Module patch.
(** [patch.Helper] keeps the object as it was when the helper was
    built. *)
Record Helper : Type := { beforeObject : ipamv1.IPPool }.

Definition NewHelper (obj : ipamv1.IPPool) (crClient : client.Client)
    : Helper + error :=
  match client.Scheme crClient obj with
  | Some err => inr err
  | None => inl {| beforeObject := obj |}
  end.

Definition Patch (h : Helper) (crClient : client.Client)
    (obj : ipamv1.IPPool) : option error :=
  client.Patch_IPPool crClient (beforeObject h) obj.
End patch.

Module ipam.
(** [ipam.IPPoolManagerInterface].  A manager holds the pointer to the
    pool under reconciliation, so each method is a transformer of that
    shared object, with the values it returns. *)
Record IPPoolManagerInterface : Type :=
  { SetClusterOwnerRef :
      clusterv1.Cluster -> ipamv1.IPPool -> ipamv1.IPPool * option error;
    SetFinalizer : ipamv1.IPPool -> ipamv1.IPPool;
    UnsetFinalizer : ipamv1.IPPool -> ipamv1.IPPool;
    UpdateAddresses :
      ipamv1.IPPool -> ipamv1.IPPool * (Z * option error) }.

(** [ipam.ManagerFactoryInterface] *)
Record ManagerFactoryInterface : Type :=
  { NewIPPoolManager :
      ipamv1.IPPool -> IPPoolManagerInterface + error }.
End ipam.

(** What the imported packages fix and this file does not see: the label
    and annotation keys of cluster-api, the finalizer name of the ipam
    API, and the not-found test of apimachinery. *)
Class Imports : Type :=
  { ClusterNameLabel : string;
    ProviderNameLabel : string;
    PausedAnnotation : string;
    IPPoolFinalizer : string;
    IsNotFound : error -> bool }.

(** Setters for the fields the controller and the manager write. *)
Definition set_Labels (l : option (gmap string string))
    (p : ipamv1.IPPool) : ipamv1.IPPool :=
  let m := ipamv1.ObjectMeta p in
  {| ipamv1.ObjectMeta :=
       {| metav1.Name := metav1.Name m;
          metav1.Namespace := metav1.Namespace m;
          metav1.Labels := l;
          metav1.Annotations := metav1.Annotations m;
          metav1.Finalizers := metav1.Finalizers m;
          metav1.DeletionTimestamp := metav1.DeletionTimestamp m |};
     ipamv1.Spec := ipamv1.Spec p;
     ipamv1.Status := ipamv1.Status p |}.

Definition set_Finalizers (f : list string)
    (p : ipamv1.IPPool) : ipamv1.IPPool :=
  let m := ipamv1.ObjectMeta p in
  {| ipamv1.ObjectMeta :=
       {| metav1.Name := metav1.Name m;
          metav1.Namespace := metav1.Namespace m;
          metav1.Labels := metav1.Labels m;
          metav1.Annotations := metav1.Annotations m;
          metav1.Finalizers := f;
          metav1.DeletionTimestamp := metav1.DeletionTimestamp m |};
     ipamv1.Spec := ipamv1.Spec p;
     ipamv1.Status := ipamv1.Status p |}.

Definition set_Status (st : ipamv1.IPPoolStatus)
    (p : ipamv1.IPPool) : ipamv1.IPPool :=
  {| ipamv1.ObjectMeta := ipamv1.ObjectMeta p;
     ipamv1.Spec := ipamv1.Spec p;
     ipamv1.Status := st |}.

Definition Labels_of (p : ipamv1.IPPool) : option (gmap string string) :=
  metav1.Labels (ipamv1.ObjectMeta p).

Definition Finalizers_of (p : ipamv1.IPPool) : list string :=
  metav1.Finalizers (ipamv1.ObjectMeta p).

Definition DeletionTimestamp_of (p : ipamv1.IPPool) : option Time :=
  metav1.DeletionTimestamp (ipamv1.ObjectMeta p).

(** ** Constants of the controller *)

Definition ipPoolControllerName : string := "IPPool-controller".
Definition requeueAfter : Duration := time.Second * 30.

(** ** The request mappers *)

(** [IPClaimToIPPool], lines 207-225. *)
Definition IPClaimToIPPool (obj : client.Object) : list ctrl.Request :=
  match obj with
  | client.IPClaim m3ipc =>
      let ref := ipamv1.Pool (ipamv1.ClaimSpec m3ipc) in
      if negb (String.eqb (ipamv1.Name ref) "") then
        let namespace := ipamv1.Namespace ref in
        let namespace :=
          if String.eqb namespace ""
          then metav1.Namespace (ipamv1.ClaimMeta m3ipc)
          else namespace in
        [ {| ctrl.NamespacedName :=
               {| types.Name := ipamv1.Name ref;
                  types.Namespace := namespace |} |} ]
      else []
  | _ => []
  end.

(** [IPAddressClaimToIPPool], lines 227-242. *)
Definition IPAddressClaimToIPPool (obj : client.Object)
    : list ctrl.Request :=
  match obj with
  | client.IPAddressClaim ipac =>
      let ref := capipamv1.PoolRef (capipamv1.Spec ipac) in
      if negb (String.eqb (capipamv1.Name ref) "") then
        let namespace := metav1.Namespace (capipamv1.ObjectMeta ipac) in
        [ {| ctrl.NamespacedName :=
               {| types.Name := capipamv1.Name ref;
                  types.Namespace := namespace |} |} ]
      else []
  | _ => []
  end.

(** ** The retry classifier *)

(** [checkRequeueError], lines 244-253.  [None] is the nil error. *)
Definition checkRequeueError (err : option error) (errMessage : string)
    : ctrl.Result * option error :=
  match err with
  | None => (ctrl.empty, None)
  | Some e =>
      match errors.As e with
      | Some d =>
          ({| ctrl.Requeue := true; ctrl.RequeueAfter := d |}, None)
      | None => (ctrl.empty, Some (errors.Wrap e errMessage))
      end
  end.

(** ** The reconciler *)

(** [IPPoolReconciler]; the logger is left out, it decides nothing. *)
Record IPPoolReconciler : Type :=
  { Client : client.Client;
    ManagerFactory : ipam.ManagerFactoryInterface;
    WatchFilterValue : string }.

(** The calls a pass makes on its collaborators. *)
Inductive Call : Type :=
| Call_Get_IPPool
| Call_NewHelper
| Call_Get_Cluster
| Call_NewIPPoolManager
| Call_SetClusterOwnerRef
| Call_SetFinalizer
| Call_UnsetFinalizer
| Call_UpdateAddresses
| Call_Patch.

#[global] Instance Call_eq_dec : EqDecision Call.
Proof. solve_decision. Defined.

(** The calls that are methods of the pool manager. *)
Definition is_manager_call (c : Call) : bool :=
  match c with
  | Call_SetClusterOwnerRef | Call_SetFinalizer
  | Call_UnsetFinalizer | Call_UpdateAddresses => true
  | _ => false
  end.

(** The state of a pass: the in-memory pool behind the shared pointer,
    and the calls made so far, oldest first, each with the pool as it
    was when the call was made. *)
Record state : Type :=
  { pool : ipamv1.IPPool;
    calls : list (Call * ipamv1.IPPool) }.

Definition M (A : Type) : Type := state -> A * state.

Definition ret {A : Type} (x : A) : M A := fun s => (x, s).

Definition bind {A B : Type} (m : M A) (f : A -> M B) : M B :=
  fun s => let '(a, s') := m s in f a s'.

Notation "x <- m ;; k" := (bind m (fun x => k))
  (at level 100, m at next level, right associativity).
Notation "'exec' m ;; k" := (bind m (fun _ => k))
  (at level 100, m at next level, right associativity).

Definition getPool : M ipamv1.IPPool := fun s => (pool s, s).

Definition setPool (p : ipamv1.IPPool) : M unit :=
  fun s => (tt, {| pool := p; calls := calls s |}).

(** A call is logged with the pool as it is at that moment. *)
Definition logged (c : Call) (s : state) : state :=
  {| pool := pool s; calls := calls s ++ [(c, pool s)] |}.

Definition call (c : Call) : M unit := fun s => (tt, logged c s).

(** The names of the calls made, oldest first. *)
Definition called (s : state) : list Call := (calls s).*1.

(** Method calls through the manager interface, on the shared pool. *)
Definition invoke_SetClusterOwnerRef (ipPoolMgr : ipam.IPPoolManagerInterface)
    (cluster : clusterv1.Cluster) : M (option error) :=
  exec call Call_SetClusterOwnerRef ;;
  p <- getPool ;;
  let '(p', err) := ipam.SetClusterOwnerRef ipPoolMgr cluster p in
  exec setPool p' ;;
  ret err.

Definition invoke_SetFinalizer (ipPoolMgr : ipam.IPPoolManagerInterface)
    : M unit :=
  exec call Call_SetFinalizer ;;
  p <- getPool ;;
  setPool (ipam.SetFinalizer ipPoolMgr p).

Definition invoke_UnsetFinalizer (ipPoolMgr : ipam.IPPoolManagerInterface)
    : M unit :=
  exec call Call_UnsetFinalizer ;;
  p <- getPool ;;
  setPool (ipam.UnsetFinalizer ipPoolMgr p).

Definition invoke_UpdateAddresses (ipPoolMgr : ipam.IPPoolManagerInterface)
    : M (Z * option error) :=
  exec call Call_UpdateAddresses ;;
  p <- getPool ;;
  let '(p', out) := ipam.UpdateAddresses ipPoolMgr p in
  exec setPool p' ;;
  ret out.

(** [reconcileNormal], lines 147-159. *)
Definition reconcileNormal (ipPoolMgr : ipam.IPPoolManagerInterface)
    : M (ctrl.Result * option error) :=
  exec invoke_SetFinalizer ipPoolMgr ;;
  out <- invoke_UpdateAddresses ipPoolMgr ;;
  let '(_, err) := out in
  match err with
  | Some e => ret (checkRequeueError (Some e) "Failed to create the missing data")
  | None => ret (ctrl.empty, None)
  end.

(** [reconcileDelete], lines 161-176. *)
Definition reconcileDelete (ipPoolMgr : ipam.IPPoolManagerInterface)
    : M (ctrl.Result * option error) :=
  out <- invoke_UpdateAddresses ipPoolMgr ;;
  let '(allocationsNb, err) := out in
  match err with
  | Some e => ret (checkRequeueError (Some e) "Failed to delete the old secrets")
  | None =>
      exec (if Z.eqb allocationsNb 0
            then invoke_UnsetFinalizer ipPoolMgr
            else ret tt) ;;
      ret (ctrl.empty, None)
  end.

Section Reconcile.
Context `{Imports}.

(** Modelled from the spec: [annotations.IsPaused] and
    [annotations.HasPaused] of cluster-api, which are not in the
    sources: the pass is paused when either the pool or the parent
    carries the paused signal; the parent's is its [Spec.Paused], the
    pool's is the paused annotation. *)
Definition HasPaused (o : ipamv1.IPPool) : bool :=
  bool_decide
    (is_Some (metav1.Annotations (ipamv1.ObjectMeta o) !! PausedAnnotation)).

Definition IsPaused (cluster : clusterv1.Cluster) (o : ipamv1.IPPool)
    : bool :=
  clusterv1.Paused (clusterv1.Spec cluster) || HasPaused o.

(** Lines 101-105: the label map is made if it is nil, then the two
    labels are written. *)
Definition stampLabels (clusterName : string) (p : ipamv1.IPPool)
    : ipamv1.IPPool :=
  let labels := default ∅ (Labels_of p) in
  let labels := <[ClusterNameLabel := clusterName]> labels in
  let labels := <[ProviderNameLabel := "ipam-metal3"]> labels in
  set_Labels (Some labels) p.

(** Lines 125-136.  [Some out] ends the pass with [out]; [None] lets
    it go on to the dispatch. *)
Definition Reconcile_gate (ipPoolMgr : ipam.IPPoolManagerInterface)
    (cluster : option clusterv1.Cluster)
    : M (option (ctrl.Result * option error)) :=
  ipamv1IPPool <- getPool ;;
  match ipamv1.ClusterName (ipamv1.Spec ipamv1IPPool), cluster with
  | Some _, Some c =>
      if negb (String.eqb (metav1.Name (clusterv1.ObjectMeta c)) "") then
        err <- invoke_SetClusterOwnerRef ipPoolMgr c ;;
        match err with
        | Some e => ret (Some (ctrl.empty, Some e))
        | None =>
            ipamv1IPPool <- getPool ;;
            if IsPaused c ipamv1IPPool then
              ret (Some ({| ctrl.Requeue := true;
                            ctrl.RequeueAfter := requeueAfter |}, None))
            else ret None
        end
      else ret None
  | _, _ => ret None
  end.

(** Lines 119-144: manager creation, gate, dispatch.  [cluster] is the
    pointer the first part leaves: [None] is nil. *)
Definition Reconcile_manage (r : IPPoolReconciler)
    (cluster : option clusterv1.Cluster)
    : M (ctrl.Result * option error) :=
  ipamv1IPPool <- getPool ;;
  exec call Call_NewIPPoolManager ;;
  match ipam.NewIPPoolManager (ManagerFactory r) ipamv1IPPool with
  | inr err =>
      ret (ctrl.empty,
           Some (errors.Wrapf err
                   "failed to create helper for managing the IP pool"))
  | inl ipPoolMgr =>
      gate <- Reconcile_gate ipPoolMgr cluster ;;
      match gate with
      | Some out => ret out
      | None =>
          ipamv1IPPool <- getPool ;;
          if negb (metav1.IsZero (DeletionTimestamp_of ipamv1IPPool))
          then reconcileDelete ipPoolMgr
          else reconcileNormal ipPoolMgr
      end
  end.

(** Lines 96-99: the key of the owning cluster, in the pool's
    namespace. *)
Definition owner_key (clusterName : string) (p : ipamv1.IPPool)
    : client.ObjectKey :=
  {| types.Name := clusterName;
     types.Namespace := metav1.Namespace (ipamv1.ObjectMeta p) |}.

(** Lines 94-144: what runs under the deferred patch.  A failed fetch
    leaves the cluster object as it was allocated, [clusterv1.zero]. *)
Definition Reconcile_body (r : IPPoolReconciler)
    : M (ctrl.Result * option error) :=
  ipamv1IPPool <- getPool ;;
  match ipamv1.ClusterName (ipamv1.Spec ipamv1IPPool) with
  | Some clusterName =>
      let key := owner_key clusterName ipamv1IPPool in
      exec setPool (stampLabels clusterName ipamv1IPPool) ;;
      exec call Call_Get_Cluster ;;
      let '(cluster, err) :=
        match client.Get_Cluster (Client r) key with
        | inl c => (c, None)
        | inr e => (clusterv1.zero, Some e)
        end in
      ipamv1IPPool <- getPool ;;
      if metav1.IsZero (DeletionTimestamp_of ipamv1IPPool)
         && bool_decide (is_Some err)
      then ret (ctrl.empty, None)
      else Reconcile_manage r (Some cluster)
  | None => Reconcile_manage r None
  end.

(** [Reconcile], lines 69-145.  The named result [rerr] is what the
    body returns, unless the deferred patch fails and overwrites it. *)
Definition Reconcile (r : IPPoolReconciler) (req : ctrl.Request)
    : M (ctrl.Result * option error) :=
  exec setPool ipamv1.zero ;;
  exec call Call_Get_IPPool ;;
  match client.Get_IPPool (Client r) (ctrl.NamespacedName req) with
  | inr err =>
      if IsNotFound err then ret (ctrl.empty, None)
      else ret (ctrl.empty, Some err)
  | inl obj =>
      exec setPool obj ;;
      exec call Call_NewHelper ;;
      match patch.NewHelper obj (Client r) with
      | inr err =>
          ret (ctrl.empty,
               Some (errors.Wrap err "failed to init patch helper"))
      | inl helper =>
          out <- Reconcile_body r ;;
          exec call Call_Patch ;;
          ipamv1IPPool <- getPool ;;
          match patch.Patch helper (Client r) ipamv1IPPool with
          | Some err => ret (fst out, Some err)
          | None => ret out
          end
      end
  end.

(** A pass starts with nothing fetched and nothing called. *)
Definition start : state := {| pool := ipamv1.zero; calls := [] |}.

(** The state after lines 101-108: the labels are written, then the
    cluster is read. *)
Definition resolved (clusterName : string) (s : state) : state :=
  logged Call_Get_Cluster
    {| pool := stampLabels clusterName (pool s); calls := calls s |}.

(** A manager leaves the labels of the pool alone. *)
Definition keeps_Labels (m : ipam.IPPoolManagerInterface) : Prop :=
  (forall c p, Labels_of (ipam.SetClusterOwnerRef m c p).1 = Labels_of p) /\
  (forall p, Labels_of (ipam.SetFinalizer m p) = Labels_of p) /\
  (forall p, Labels_of (ipam.UnsetFinalizer m p) = Labels_of p) /\
  (forall p, Labels_of (ipam.UpdateAddresses m p).1 = Labels_of p).

(** The state in which the body starts: the pool is fetched and the
    patch helper is built. *)
Definition fetched (obj : ipamv1.IPPool) : state :=
  {| pool := obj;
     calls := [(Call_Get_IPPool, ipamv1.zero); (Call_NewHelper, obj)] |}.

(** Modelled from the spec: [ipam.IPPoolManager], the manager of this
    repository, whose file is not in the sources.  [SetFinalizer] and
    [UnsetFinalizer] are idempotent marker toggles with no failure
    mode; [UpdateAddresses] does the allocation bookkeeping, which
    lives in the pool's status, and reports the number of allocated
    addresses and an error; [SetClusterOwnerRef] records the owner. *)
Definition SetFinalizer_spec (p : ipamv1.IPPool) : ipamv1.IPPool :=
  if bool_decide (IPPoolFinalizer ∈ Finalizers_of p) then p
  else set_Finalizers (Finalizers_of p ++ [IPPoolFinalizer]) p.

Definition UnsetFinalizer_spec (p : ipamv1.IPPool) : ipamv1.IPPool :=
  set_Finalizers
    (filter (fun f => f ≠ IPPoolFinalizer) (Finalizers_of p)) p.

Definition IPPoolManager
    (ownerRef :
       clusterv1.Cluster -> ipamv1.IPPool -> ipamv1.IPPool * option error)
    (bookkeeping :
       ipamv1.IPPool -> ipamv1.IPPoolStatus * (Z * option error))
    : ipam.IPPoolManagerInterface :=
  {| ipam.SetClusterOwnerRef := ownerRef;
     ipam.SetFinalizer := SetFinalizer_spec;
     ipam.UnsetFinalizer := UnsetFinalizer_spec;
     ipam.UpdateAddresses := fun p =>
       let '(st, out) := bookkeeping p in (set_Status st p, out) |}.
End Reconcile.

(** ** Concrete collaborators

    A store that holds a list of pools and a list of clusters, a factory
    that builds the manager above with a fixed bookkeeping outcome, and
    the values the imported packages give the constants. *)

Definition cluster_api : Imports :=
  {| ClusterNameLabel := "cluster.x-k8s.io/cluster-name";
     ProviderNameLabel := "cluster.x-k8s.io/provider";
     PausedAnnotation := "cluster.x-k8s.io/paused";
     IPPoolFinalizer := "ippool.ipam.metal3.io";
     IsNotFound := fun e =>
       match e with
       | errorString msg => String.eqb msg "not found"
       | _ => false
       end |}.

Definition has_key (key : client.ObjectKey) (m : metav1.ObjectMeta) : bool :=
  String.eqb (metav1.Name m) (types.Name key)
  && String.eqb (metav1.Namespace m) (types.Namespace key).

(** A read fails for an empty name, and for a key the store does not
    hold. *)
Definition fakeGet {A : Type} (meta : A -> metav1.ObjectMeta)
    (objs : list A) (key : client.ObjectKey) : A + error :=
  if String.eqb (types.Name key) "" then
    inr (errorString "resource name may not be empty")
  else
    match List.find (fun o => has_key key (meta o)) objs with
    | Some o => inl o
    | None => inr (errorString "not found")
    end.

Definition fakeClient (pools : list ipamv1.IPPool)
    (clusters : list clusterv1.Cluster) (patchErr : option error)
    : client.Client :=
  {| client.Get_IPPool := fakeGet ipamv1.ObjectMeta pools;
     client.Get_Cluster := fakeGet clusterv1.ObjectMeta clusters;
     client.Patch_IPPool := fun _ _ => patchErr;
     client.Scheme := fun _ => None |}.

Definition fakeManager `{Imports} (allocationsNb : Z) (err : option error)
    : ipam.IPPoolManagerInterface :=
  IPPoolManager (fun _ p => (p, None))
                (fun p => (ipamv1.Status p, (allocationsNb, err))).

Definition fakeFactory `{Imports} (allocationsNb : Z) (err : option error)
    : ipam.ManagerFactoryInterface :=
  {| ipam.NewIPPoolManager := fun _ => inl (fakeManager allocationsNb err) |}.

Definition fakeReconciler `{Imports} (pools : list ipamv1.IPPool)
    (clusters : list clusterv1.Cluster) (patchErr : option error)
    (allocationsNb : Z) (err : option error) : IPPoolReconciler :=
  {| Client := fakeClient pools clusters patchErr;
     ManagerFactory := fakeFactory allocationsNb err;
     WatchFilterValue := "" |}.

Definition mkMeta (name namespace : string)
    (annotations : gmap string string) (finalizers : list string)
    (deletion : option Time) : metav1.ObjectMeta :=
  {| metav1.Name := name; metav1.Namespace := namespace;
     metav1.Labels := None; metav1.Annotations := annotations;
     metav1.Finalizers := finalizers;
     metav1.DeletionTimestamp := deletion |}.

Definition mkPool (name namespace : string)
    (annotations : gmap string string) (finalizers : list string)
    (deletion : option Time) (clusterName : option string) : ipamv1.IPPool :=
  {| ipamv1.ObjectMeta := mkMeta name namespace annotations finalizers deletion;
     ipamv1.Spec := {| ipamv1.ClusterName := clusterName |};
     ipamv1.Status := {| ipamv1.Allocations := ∅ |} |}.

Definition mkCluster (name namespace : string) (paused : bool)
    : clusterv1.Cluster :=
  {| clusterv1.ObjectMeta := mkMeta name namespace ∅ [] None;
     clusterv1.Spec := {| clusterv1.Paused := paused |} |}.

(** The request for the pool of a name in a scope. *)
Definition poolRequest (name namespace : string) : ctrl.Request :=
  {| ctrl.NamespacedName :=
       {| types.Name := name; types.Namespace := namespace |} |}.

(** The capability test of the classifier, as a relation: the first value
    of the chain that answers [GetRequeueAfter] answers [d]. *)
Inductive HasRequeueAfterError : error -> Duration -> Prop :=
| has_requeue_here (d : Duration) :
    HasRequeueAfterError (RequeueAfterError d) d
| has_requeue_below (cause : error) (msg : string) (d : Duration) :
    HasRequeueAfterError cause d ->
    HasRequeueAfterError (withMessage cause msg) d.

(** Claims used below. *)
Definition claim_of (namespace poolName poolNamespace : string)
    : ipamv1.IPClaim :=
  {| ipamv1.ClaimMeta := mkMeta "claim" namespace ∅ [] None;
     ipamv1.ClaimSpec :=
       {| ipamv1.Pool :=
            {| ipamv1.Name := poolName;
               ipamv1.Namespace := poolNamespace |} |} |}.

Definition address_claim_of (namespace poolName : string)
    : capipamv1.IPAddressClaim :=
  {| capipamv1.ObjectMeta := mkMeta "claim" namespace ∅ [] None;
     capipamv1.Spec :=
       {| capipamv1.PoolRef :=
            {| capipamv1.APIGroup := Some "ipam.metal3.io";
               capipamv1.Kind := "IPPool";
               capipamv1.Name := poolName |} |} |}.

(** ** Scenarios

    The pools of the scenarios, each run against the store and the
    manager above with the constants of [cluster_api]. *)

Definition finalizer : string := "ippool.ipam.metal3.io".
Definition deleted_at : option Time := Some 1700000000.

(** No owner, not marked for deletion, no finalizer. *)
Definition P1 : ipamv1.IPPool := mkPool "P1" "ns1" ∅ [] None None.

(** Marked for deletion, finalizer present, no owner. *)
Definition P2 : ipamv1.IPPool :=
  mkPool "P2" "ns1" ∅ [finalizer] deleted_at None.

(** Names a cluster the store does not hold; marked for deletion. *)
Definition orphan : ipamv1.IPPool :=
  mkPool "orphan" "ns1" ∅ [finalizer] deleted_at (Some "gone").

(** Names a cluster the store does not hold yet; not marked. *)
Definition waiting : ipamv1.IPPool :=
  mkPool "waiting" "ns1" ∅ [] None (Some "later").

(** Names the cluster c1, which is paused. *)
Definition owned : ipamv1.IPPool :=
  mkPool "owned" "ns1" ∅ [] None (Some "c1").
Definition c1 : clusterv1.Cluster := mkCluster "c1" "ns1" true.

(** Carries the paused annotation and names no cluster. *)
Definition alone : ipamv1.IPPool :=
  mkPool "alone" "ns1" {["cluster.x-k8s.io/paused" := "true"]} [] None None.

(** Names the empty string as its cluster; not marked, and marked. *)
Definition blank : ipamv1.IPPool :=
  mkPool "blank" "ns1" ∅ [] None (Some "").
Definition blank_deleted : ipamv1.IPPool :=
  mkPool "blank" "ns1" ∅ [finalizer] deleted_at (Some "").

(** The pool [blank] without its reference. *)
Definition blank_unowned : ipamv1.IPPool :=
  mkPool "blank" "ns1" ∅ [] None None.

(** A reconciler over a store that holds [p] and [clusters], the
    request for [p], and one pass for it. *)
Definition reconciler_over (p : ipamv1.IPPool)
    (clusters : list clusterv1.Cluster) (patchErr : option error)
    (allocationsNb : Z) (err : option error) : IPPoolReconciler :=
  fakeReconciler (H := cluster_api) [p] clusters patchErr allocationsNb err.

Definition request_of (p : ipamv1.IPPool) : ctrl.Request :=
  poolRequest (metav1.Name (ipamv1.ObjectMeta p))
              (metav1.Namespace (ipamv1.ObjectMeta p)).

Definition pass_over (p : ipamv1.IPPool)
    (clusters : list clusterv1.Cluster) (patchErr : option error)
    (allocationsNb : Z) (err : option error)
    : (ctrl.Result * option error) * state :=
  Reconcile (H := cluster_api)
    (reconciler_over p clusters patchErr allocationsNb err)
    (request_of p) start.

(** The pass over [orphan] with two addresses allocated, once with a
    patch the store accepts and once with a patch it refuses. *)
Definition conflict : error := errorString "conflict".

Definition orphan_pass (patchErr : option error)
    : (ctrl.Result * option error) * state :=
  pass_over orphan [] patchErr 2 None.

(** The manager the factory of these reconcilers builds. *)
Definition manager_of (allocationsNb : Z) (err : option error)
    : ipam.IPPoolManagerInterface :=
  fakeManager (H := cluster_api) allocationsNb err.

Definition stamped_with (clusterName : string) (p : ipamv1.IPPool)
    : ipamv1.IPPool :=
  stampLabels (H := cluster_api) clusterName p.

(** ** The shapes of a pass *)

(** The method calls of the two paths: the Normal path, and the Delete
    path without and with the removal of the finalizer. *)
Definition path_logs : list (list Call) :=
  [ [Call_SetFinalizer; Call_UpdateAddresses];
    [Call_UpdateAddresses];
    [Call_UpdateAddresses; Call_UnsetFinalizer] ].

(** The calls from the creation of the manager on.  [owner] tells
    whether a cluster object is at hand, which only then may be recorded
    as the owner. *)
Definition manage_logs (owner : bool) : list (list Call) :=
  [Call_NewIPPoolManager]
  :: List.map (cons Call_NewIPPoolManager) path_logs
  ++ (if owner then
        [Call_NewIPPoolManager; Call_SetClusterOwnerRef]
        :: List.map
             (fun p => Call_NewIPPoolManager :: Call_SetClusterOwnerRef :: p)
             path_logs
      else []).

(** The calls of the body: without a reference, and with one. *)
Definition body_logs : list (list Call) :=
  manage_logs false
  ++ [Call_Get_Cluster]
  :: List.map (cons Call_Get_Cluster) (manage_logs true).

(** The calls of a pass. *)
Definition pass_logs : list (list Call) :=
  [Call_Get_IPPool]
  :: [Call_Get_IPPool; Call_NewHelper]
  :: List.map
       (fun b => Call_Get_IPPool :: Call_NewHelper :: b ++ [Call_Patch])
       body_logs.

(** The three forms of what a pass returns from its body: success, a
    fatal error, a requeue. *)
Definition result_form (out : ctrl.Result * option error) : Prop :=
  out = (ctrl.empty, None) \/
  (exists e, out = (ctrl.empty, Some e)) \/
  (exists d,
     out = ({| ctrl.Requeue := true; ctrl.RequeueAfter := d |}, None)).

(** Every value an operation returns satisfies [Q]. *)
Definition returns {A : Type} (Q : A -> Prop) (m : M A) : Prop :=
  forall s : state, Q (m s).1.

(** A manager that writes nothing to the pool. *)
Definition inert (m : ipam.IPPoolManagerInterface) : Prop :=
  (forall c p, (ipam.SetClusterOwnerRef m c p).1 = p) /\
  (forall p, ipam.SetFinalizer m p = p) /\
  (forall p, ipam.UnsetFinalizer m p = p) /\
  (forall p, (ipam.UpdateAddresses m p).1 = p).

(** What the controller itself writes to a fetched pool: the two labels
    when the pool names a cluster, nothing otherwise. *)
Definition own_writes `{Imports} (p : ipamv1.IPPool) : ipamv1.IPPool :=
  match ipamv1.ClusterName (ipamv1.Spec p) with
  | Some clusterName => stampLabels clusterName p
  | None => p
  end.

(** The cluster pointer of line 125 for a fetched pool, when the pass
    gets that far: nil without a reference, the cluster read or the
    zero-valued object otherwise; [None] when the failed read on a pool
    that is not marked for deletion ends the pass at line 112. *)
Definition cluster_at_gate `{Imports} (r : IPPoolReconciler)
    (p : ipamv1.IPPool) : option (option clusterv1.Cluster) :=
  match ipamv1.ClusterName (ipamv1.Spec p) with
  | None => Some None
  | Some clusterName =>
      match client.Get_Cluster (Client r) (owner_key clusterName p) with
      | inl c => Some (Some c)
      | inr _ =>
          if metav1.IsZero (DeletionTimestamp_of p) then None
          else Some (Some clusterv1.zero)
      end
  end.

(** The state in which the manager is created for a fetched pool. *)
Definition at_manager `{Imports} (p : ipamv1.IPPool) : state :=
  match ipamv1.ClusterName (ipamv1.Spec p) with
  | Some clusterName => resolved clusterName (fetched p)
  | None => fetched p
  end.

(** An address claim with another type of pool reference. *)
Definition with_PoolRef_type (apiGroup : option string) (kind : string)
    (ipac : capipamv1.IPAddressClaim) : capipamv1.IPAddressClaim :=
  {| capipamv1.ObjectMeta := capipamv1.ObjectMeta ipac;
     capipamv1.Spec :=
       {| capipamv1.PoolRef :=
            {| capipamv1.APIGroup := apiGroup;
               capipamv1.Kind := kind;
               capipamv1.Name :=
                 capipamv1.Name (capipamv1.PoolRef (capipamv1.Spec ipac)) |}
       |} |}.

(** More collaborators: a client whose scheme refuses the pool, a
    factory that fails, a manager that refuses the owner, and a manager
    that does nothing. *)
Definition schemelessClient (pools : list ipamv1.IPPool) (err : error)
    : client.Client :=
  {| client.Get_IPPool := fakeGet ipamv1.ObjectMeta pools;
     client.Get_Cluster := fakeGet clusterv1.ObjectMeta [];
     client.Patch_IPPool := fun _ _ => None;
     client.Scheme := fun _ => Some err |}.

Definition failingFactory (err : error) : ipam.ManagerFactoryInterface :=
  {| ipam.NewIPPoolManager := fun _ => inr err |}.

Definition refusingManager `{Imports} (err : error)
    : ipam.IPPoolManagerInterface :=
  IPPoolManager (fun _ p => (p, Some err))
                (fun p => (ipamv1.Status p, (0, None))).

Definition inertManager : ipam.IPPoolManagerInterface :=
  {| ipam.SetClusterOwnerRef := fun _ p => (p, None);
     ipam.SetFinalizer := fun p => p;
     ipam.UnsetFinalizer := fun p => p;
     ipam.UpdateAddresses := fun p => (p, (0, None)) |}.

Definition refusingFactory `{Imports} (err : error)
    : ipam.ManagerFactoryInterface :=
  {| ipam.NewIPPoolManager := fun _ => inl (refusingManager err) |}.

Definition inertFactory : ipam.ManagerFactoryInterface :=
  {| ipam.NewIPPoolManager := fun _ => inl inertManager |}.

Definition reconciler_with (c : client.Client)
    (f : ipam.ManagerFactoryInterface) : IPPoolReconciler :=
  {| Client := c; ManagerFactory := f; WatchFilterValue := "" |}.

(** * Properties *)

(** ** Properties of the request mappers *)

Lemma eqb_empty_false (s : string) : s ≠ "" -> String.eqb s "" = false.
Proof. intros Hs. by apply String.eqb_neq. Qed.

(** C4.  Each mapper is total and returns one request for a claim of its
    own type that names a pool, and no request otherwise.  The request
    carries the pool name of the claim.  Its scope, for the pool-claim
    mapper, is the scope field of the pool reference when that is not
    empty and the claim's own scope when it is; the reference of an
    address claim has no scope field, and the scope is the claim's own. *)
Theorem mappers_emit_at_most_one_request (obj : client.Object) :
  (forall m3ipc, obj = client.IPClaim m3ipc ->
     let ref := ipamv1.Pool (ipamv1.ClaimSpec m3ipc) in
     let own := metav1.Namespace (ipamv1.ClaimMeta m3ipc) in
     (ipamv1.Name ref ≠ "" -> ipamv1.Namespace ref ≠ "" ->
        IPClaimToIPPool obj
        = [poolRequest (ipamv1.Name ref) (ipamv1.Namespace ref)]) /\
     (ipamv1.Name ref ≠ "" -> ipamv1.Namespace ref = "" ->
        IPClaimToIPPool obj = [poolRequest (ipamv1.Name ref) own]) /\
     (ipamv1.Name ref = "" -> IPClaimToIPPool obj = [])) /\
  ((forall m3ipc, obj ≠ client.IPClaim m3ipc) -> IPClaimToIPPool obj = []) /\
  (forall ipac, obj = client.IPAddressClaim ipac ->
     let ref := capipamv1.PoolRef (capipamv1.Spec ipac) in
     let own := metav1.Namespace (capipamv1.ObjectMeta ipac) in
     (capipamv1.Name ref ≠ "" ->
        IPAddressClaimToIPPool obj
        = [poolRequest (capipamv1.Name ref) own]) /\
     (capipamv1.Name ref = "" -> IPAddressClaimToIPPool obj = [])) /\
  ((forall ipac, obj ≠ client.IPAddressClaim ipac) ->
     IPAddressClaimToIPPool obj = []) /\
  (length (IPClaimToIPPool obj) <= 1)%nat /\
  (length (IPAddressClaimToIPPool obj) <= 1)%nat.
Proof.
  repeat split.
  - intros Hname Hns. subst obj. unfold IPClaimToIPPool.
    rewrite !eqb_empty_false by done. reflexivity.
  - intros Hname Hns. subst obj. unfold IPClaimToIPPool.
    rewrite eqb_empty_false by done. cbn. rewrite Hns. reflexivity.
  - intros Hname. subst obj. unfold IPClaimToIPPool.
    rewrite Hname. reflexivity.
  - intros Hother. destruct obj as [c| | |]; try reflexivity.
    by destruct (Hother c).
  - intros Hname. subst obj. unfold IPAddressClaimToIPPool.
    rewrite eqb_empty_false by done. reflexivity.
  - intros Hname. subst obj. unfold IPAddressClaimToIPPool.
    rewrite Hname. reflexivity.
  - intros Hother. destruct obj as [|c| |]; try reflexivity.
    by destruct (Hother c).
  - destruct obj as [c| | |]; cbn; try lia.
    destruct (String.eqb _ _); cbn; lia.
  - destruct obj as [|c| |]; cbn; try lia.
    destruct (String.eqb _ _); cbn; lia.
Qed.

(** The scenario of the specification: a claim scoped to ns1 that names
    pool-a without a scope is mapped to the one request (pool-a, ns1). *)
Lemma mappers_emit_at_most_one_request_witness :
  IPClaimToIPPool (client.IPClaim (claim_of "ns1" "pool-a" ""))
  = [poolRequest "pool-a" "ns1"] /\
  IPClaimToIPPool (client.IPClaim (claim_of "ns1" "pool-a" "ns2"))
  = [poolRequest "pool-a" "ns2"] /\
  IPClaimToIPPool (client.IPClaim (claim_of "ns1" "" "ns2")) = [] /\
  IPClaimToIPPool (client.IPAddressClaim (address_claim_of "ns1" "pool-a"))
  = [] /\
  IPAddressClaimToIPPool
    (client.IPAddressClaim (address_claim_of "ns1" "pool-a"))
  = [poolRequest "pool-a" "ns1"] /\
  IPAddressClaimToIPPool (client.IPAddressClaim (address_claim_of "ns1" ""))
  = [] /\
  IPAddressClaimToIPPool (client.IPClaim (claim_of "ns1" "pool-a" "")) = [].
Proof.
  pose proof (mappers_emit_at_most_one_request
                (client.IPClaim (claim_of "ns1" "pool-a" ""))) as Ha.
  pose proof (mappers_emit_at_most_one_request
                (client.IPClaim (claim_of "ns1" "pool-a" "ns2"))) as Hb.
  pose proof (mappers_emit_at_most_one_request
                (client.IPClaim (claim_of "ns1" "" "ns2"))) as Hc.
  pose proof (mappers_emit_at_most_one_request
                (client.IPAddressClaim (address_claim_of "ns1" "pool-a")))
    as Hd.
  pose proof (mappers_emit_at_most_one_request
                (client.IPAddressClaim (address_claim_of "ns1" ""))) as He.
  destruct Ha as (Ha & _ & _ & Ha' & _).
  destruct (Ha _ eq_refl) as (_ & Ha2 & _).
  destruct Hb as (Hb & _). destruct (Hb _ eq_refl) as (Hb1 & _).
  destruct Hc as (Hc & _). destruct (Hc _ eq_refl) as (_ & _ & Hc3).
  destruct Hd as (_ & Hd & Hd' & _). destruct (Hd' _ eq_refl) as (Hd1 & _).
  destruct He as (_ & _ & He & _). destruct (He _ eq_refl) as (_ & He2).
  split; [by apply Ha2|].
  split; [by apply Hb1|].
  split; [by apply Hc3|].
  split; [by apply Hd|].
  split; [by apply Hd1|].
  split; [by apply He2|].
  by apply Ha'.
Defined.

(** ** Properties of the retry classifier *)

Lemma As_HasRequeueAfterError (e : error) (d : Duration) :
  errors.As e = Some d <-> HasRequeueAfterError e d.
Proof.
  split.
  - induction e as [msg | d' | cause IH msg]; cbn; intros Has.
    + discriminate.
    + injection Has as ->. constructor.
    + constructor. by apply IH.
  - induction 1 as [d | cause msg d _ IH]; cbn; done.
Qed.

Lemma As_None_no_capability (e : error) :
  errors.As e = None <-> forall d, ~ HasRequeueAfterError e d.
Proof.
  split.
  - intros Hnone d Hd. apply As_HasRequeueAfterError in Hd. congruence.
  - intros Hno. destruct (errors.As e) as [d|] eqn:Has; [|done].
    destruct (Hno d). by apply As_HasRequeueAfterError.
Qed.

(** C5.  The classifier maps the nil error to the empty result and no
    error; an error that has the requeue capability, itself or through
    its causes, to a requeue after that error's duration and no error;
    any other error to the empty result and the error wrapped with the
    message of the operation. *)
Theorem checkRequeueError_classifies (err : option error)
    (errMessage : string) :
  (err = None -> checkRequeueError err errMessage = (ctrl.empty, None)) /\
  (forall e d, err = Some e -> HasRequeueAfterError e d ->
     checkRequeueError err errMessage
     = ({| ctrl.Requeue := true; ctrl.RequeueAfter := d |}, None)) /\
  (forall e, err = Some e -> (forall d, ~ HasRequeueAfterError e d) ->
     checkRequeueError err errMessage
     = (ctrl.empty, Some (errors.Wrap e errMessage))).
Proof.
  repeat split.
  - by intros ->.
  - intros e d -> Hd. apply As_HasRequeueAfterError in Hd.
    unfold checkRequeueError. by rewrite Hd.
  - intros e -> Hno. apply As_None_no_capability in Hno.
    unfold checkRequeueError. by rewrite Hno.
Qed.

Lemma checkRequeueError_classifies_witness :
  checkRequeueError None "Failed to create the missing data"
  = (ctrl.empty, None) /\
  checkRequeueError
    (Some (withMessage (RequeueAfterError (time.Second * 5)) "no address"))
    "Failed to create the missing data"
  = ({| ctrl.Requeue := true; ctrl.RequeueAfter := 5000000000 |}, None) /\
  checkRequeueError (Some (errorString "boom"))
                    "Failed to create the missing data"
  = (ctrl.empty,
     Some (withMessage (errorString "boom")
                       "Failed to create the missing data")).
Proof.
  destruct (checkRequeueError_classifies
              None "Failed to create the missing data") as (Hnil & _).
  destruct (checkRequeueError_classifies
              (Some (withMessage (RequeueAfterError (time.Second * 5))
                                 "no address"))
              "Failed to create the missing data") as (_ & Hrequeue & _).
  destruct (checkRequeueError_classifies
              (Some (errorString "boom"))
              "Failed to create the missing data") as (_ & _ & Hfatal).
  split; [exact (Hnil eq_refl)|].
  split.
  - apply (Hrequeue _ _ eq_refl). repeat constructor.
  - apply (Hfatal _ eq_refl). intros d Hd. inversion Hd.
Defined.

(** ** Properties of the reconciliation pass *)

Ltac run_pass :=
  unfold Reconcile, Reconcile_body, Reconcile_manage, Reconcile_gate,
    reconcileDelete, reconcileNormal, invoke_SetClusterOwnerRef,
    invoke_SetFinalizer, invoke_UnsetFinalizer, invoke_UpdateAddresses,
    bind, ret, call, getPool, setPool in *;
  cbn [fst snd pool calls logged] in *.

Ltac split_pairs :=
  repeat match goal with
    | Hp : (_, _) = (_, _) |- _ => injection Hp as ? ?; subst
    end.

(** An operation appends to the log, and only calls that satisfy [P]. *)
Definition appends (P : Call -> Prop) {A : Type} (m : M A) : Prop :=
  forall s : state,
    exists new : list (Call * ipamv1.IPPool),
      calls (m s).2 = calls s ++ new /\ Forall (fun c => P c.1) new.

Section Appends.
Context (P : Call -> Prop) {A B : Type}.

Lemma appends_ret (x : A) : appends P (ret x).
Proof. intros s. exists []. by rewrite app_nil_r. Qed.

Lemma appends_getPool : appends P getPool.
Proof. intros s. exists []. by rewrite app_nil_r. Qed.

Lemma appends_setPool (p : ipamv1.IPPool) : appends P (setPool p).
Proof. intros s. exists []. by rewrite app_nil_r. Qed.

Lemma appends_call (c : Call) : P c -> appends P (call c).
Proof. intros Hc s. exists [(c, pool s)]. split; [done|]. by constructor. Qed.

Lemma appends_bind (m : M A) (f : A -> M B) :
  appends P m -> (forall a, appends P (f a)) -> appends P (bind m f).
Proof.
  intros Hm Hf s. unfold bind.
  destruct (Hm s) as (new1 & Hnew1 & Hall1).
  destruct (m s) as [a s1]. cbn in Hnew1.
  destruct (Hf a s1) as (new2 & Hnew2 & Hall2).
  exists (new1 ++ new2). rewrite Hnew2, Hnew1, app_assoc.
  split; [done|]. by apply Forall_app.
Qed.
End Appends.

Ltac appends_steps :=
  repeat first
    [ apply appends_ret
    | apply appends_getPool
    | apply appends_setPool
    | apply appends_call; discriminate
    | apply appends_bind; [|intros ?]
    | case_match ].

Section PassProperties.
Context `{Imports}.

(** The two paths, as equations on the state. *)
Lemma reconcileDelete_eq (ipPoolMgr : ipam.IPPoolManagerInterface)
    (s : state) :
  reconcileDelete ipPoolMgr s
  = let s1 := logged Call_UpdateAddresses s in
    let '(p', (allocationsNb, err)) :=
      ipam.UpdateAddresses ipPoolMgr (pool s) in
    let s2 := {| pool := p'; calls := calls s1 |} in
    match err with
    | Some e =>
        (checkRequeueError (Some e) "Failed to delete the old secrets", s2)
    | None =>
        if Z.eqb allocationsNb 0 then
          ((ctrl.empty, None),
           {| pool := ipam.UnsetFinalizer ipPoolMgr p';
              calls := calls (logged Call_UnsetFinalizer s2) |})
        else ((ctrl.empty, None), s2)
    end.
Proof.
  run_pass.
  destruct (ipam.UpdateAddresses ipPoolMgr (pool s)) as [p' [n [e|]]];
    cbn; [done|].
  by destruct (Z.eqb n 0).
Qed.

Lemma reconcileNormal_eq (ipPoolMgr : ipam.IPPoolManagerInterface)
    (s : state) :
  reconcileNormal ipPoolMgr s
  = let p1 := ipam.SetFinalizer ipPoolMgr (pool s) in
    let s1 := {| pool := p1; calls := calls (logged Call_SetFinalizer s) |} in
    let '(p', (_, err)) := ipam.UpdateAddresses ipPoolMgr p1 in
    let s2 :=
      {| pool := p'; calls := calls (logged Call_UpdateAddresses s1) |} in
    match err with
    | Some e =>
        (checkRequeueError (Some e) "Failed to create the missing data", s2)
    | None => ((ctrl.empty, None), s2)
    end.
Proof.
  run_pass.
  by destruct (ipam.UpdateAddresses ipPoolMgr _) as [p' [n [e|]]].
Qed.

(** The Delete path as lines 119-144 reach it, up to the return
    statement of line 140 and before the deferred patch: with the
    manager built, the gate open and the deletion timestamp set, when
    [UpdateAddresses] returns a count and no error, the finalizer is
    unset if and only if the count is zero; for a nonzero count
    [UnsetFinalizer] is not called, the pool is left as
    [UpdateAddresses] left it, and the empty result and no error are
    handed to the return statement. *)
Theorem deletion_unsets_finalizer_iff_no_allocation
    (r : IPPoolReconciler) (cluster : option clusterv1.Cluster)
    (s s2 : state) (ipPoolMgr : ipam.IPPoolManagerInterface)
    (p' : ipamv1.IPPool) (allocationsNb : Z) :
  ipam.NewIPPoolManager (ManagerFactory r) (pool s) = inl ipPoolMgr ->
  Reconcile_gate ipPoolMgr cluster (logged Call_NewIPPoolManager s)
  = (None, s2) ->
  metav1.IsZero (DeletionTimestamp_of (pool s2)) = false ->
  ipam.UpdateAddresses ipPoolMgr (pool s2) = (p', (allocationsNb, None)) ->
  exists new : list Call,
    called (Reconcile_manage r cluster s).2
    = called s2 ++ Call_UpdateAddresses :: new /\
    (Call_UnsetFinalizer ∈ new <-> allocationsNb = 0) /\
    (Reconcile_manage r cluster s).1 = (ctrl.empty, None) /\
    (allocationsNb = 0 ->
       pool (Reconcile_manage r cluster s).2
       = ipam.UnsetFinalizer ipPoolMgr p') /\
    (allocationsNb ≠ 0 ->
       new = [] /\ pool (Reconcile_manage r cluster s).2 = p').
Proof.
  intros Hmgr Hgate Hdel Hupd.
  assert (Reconcile_manage r cluster s = reconcileDelete ipPoolMgr s2)
    as ->.
  { unfold Reconcile_manage, bind, getPool, call, ret.
    rewrite Hmgr, Hgate, Hdel. reflexivity. }
  rewrite reconcileDelete_eq, Hupd. cbn zeta.
  destruct (Z.eqb_spec allocationsNb 0) as [Hz|Hnz].
  - exists [Call_UnsetFinalizer]. cbn [fst snd pool].
    split; [|split; [|split; [|split]]]; try done.
    + unfold called, logged. cbn. rewrite !fmap_app. cbn.
      by rewrite <- app_assoc.
    + split; [done|]. intros _. apply list_elem_of_singleton. done.
  - exists []. cbn [fst snd pool].
    split; [|split; [|split; [|split]]]; try done.
    + unfold called, logged. cbn. by rewrite !fmap_app.
    + split; [|done]. intros Hin. by apply elem_of_nil in Hin.
Qed.

(** The body only appends to the log, and never calls the patch. *)
Lemma Reconcile_body_calls (r : IPPoolReconciler) :
  appends (fun c => c ≠ Call_Patch) (Reconcile_body r).
Proof.
  unfold Reconcile_body, Reconcile_manage, Reconcile_gate,
    reconcileDelete, reconcileNormal, invoke_SetClusterOwnerRef,
    invoke_SetFinalizer, invoke_UnsetFinalizer, invoke_UpdateAddresses.
  appends_steps.
Qed.

(** A pass whose pool is fetched and whose helper is built is its body
    followed by the deferred patch. *)
Lemma Reconcile_fetched (r : IPPoolReconciler) (req : ctrl.Request)
    (obj : ipamv1.IPPool) (helper : patch.Helper) :
  client.Get_IPPool (Client r) (ctrl.NamespacedName req) = inl obj ->
  patch.NewHelper obj (Client r) = inl helper ->
  Reconcile r req start
  = let body := Reconcile_body r (fetched obj) in
    (match patch.Patch helper (Client r) (pool body.2) with
     | Some err => (body.1.1, Some err)
     | None => body.1
     end, logged Call_Patch body.2).
Proof.
  intros Hget Hhelper. unfold Reconcile, bind, call, setPool, getPool, ret.
  rewrite Hget, Hhelper.
  set (s1 := logged Call_NewHelper _).
  change s1 with (fetched obj). clear s1.
  destruct (Reconcile_body r (fetched obj)) as [out sb].
  cbn [fst snd logged pool].
  by destruct (patch.Patch helper (Client r) sb.(pool)).
Qed.

(** C6.  On every pass whose pool is fetched and whose patch helper is
    built, whatever way the body ends, the patch is called once, after
    the body, on the pool as the body left it; when it fails, its
    error is the error the pass returns, also when the body returned
    none; the result is the body's. *)
Theorem patch_is_flushed_on_every_exit (r : IPPoolReconciler)
    (req : ctrl.Request) (obj : ipamv1.IPPool) (helper : patch.Helper) :
  client.Get_IPPool (Client r) (ctrl.NamespacedName req) = inl obj ->
  patch.NewHelper obj (Client r) = inl helper ->
  let body := Reconcile_body r (fetched obj) in
  let pass := Reconcile r req start in
  calls pass.2 = calls body.2 ++ [(Call_Patch, pool body.2)] /\
  (Call_Patch ∉ called body.2) /\
  pass.1.1 = body.1.1 /\
  (forall err, patch.Patch helper (Client r) (pool body.2) = Some err ->
     pass.1.2 = Some err) /\
  (patch.Patch helper (Client r) (pool body.2) = None ->
     pass.1.2 = body.1.2).
Proof.
  intros Hget Hhelper body pass. subst pass.
  rewrite (Reconcile_fetched r req obj helper Hget Hhelper).
  fold body. cbn [fst snd].
  split; [reflexivity|]. split.
  - destruct (Reconcile_body_calls r (fetched obj)) as (new & Hnew & Hno).
    unfold called. fold body in Hnew. rewrite Hnew, fmap_app.
    intros [Hin|Hin]%elem_of_app.
    + revert Hin. cbn. compute_done.
    + apply list_elem_of_fmap in Hin as (c & Hc & Hin).
      rewrite Forall_forall in Hno. by apply (Hno c Hin).
  - split; [by destruct (patch.Patch _ _ _)|].
    split; [by intros err ->|by intros ->].
Qed.

(** The first part of the body, for a pool that names a cluster. *)
Lemma Reconcile_body_owner (r : IPPoolReconciler) (s : state)
    (clusterName : string) :
  ipamv1.ClusterName (ipamv1.Spec (pool s)) = Some clusterName ->
  Reconcile_body r s
  = match client.Get_Cluster (Client r) (owner_key clusterName (pool s)) with
    | inl c => Reconcile_manage r (Some c) (resolved clusterName s)
    | inr _ =>
        if metav1.IsZero (DeletionTimestamp_of (pool s))
        then ((ctrl.empty, None), resolved clusterName s)
        else Reconcile_manage r (Some clusterv1.zero) (resolved clusterName s)
    end.
Proof.
  intros Hname. unfold Reconcile_body, bind, getPool, setPool, call, ret.
  rewrite Hname. fold (resolved clusterName s).
  change (DeletionTimestamp_of (pool (resolved clusterName s)))
    with (DeletionTimestamp_of (pool s)).
  destruct (client.Get_Cluster _ _) as [c|e].
  - by rewrite andb_false_r.
  - change (DeletionTimestamp_of (pool (resolved clusterName s)))
      with (DeletionTimestamp_of (pool s)).
    rewrite bool_decide_eq_true_2, andb_true_r by eauto.
    by destruct (metav1.IsZero (DeletionTimestamp_of (pool s))).
Qed.

Lemma Reconcile_body_no_owner (r : IPPoolReconciler) (s : state) :
  ipamv1.ClusterName (ipamv1.Spec (pool s)) = None ->
  Reconcile_body r s = Reconcile_manage r None s.
Proof.
  intros Hname. unfold Reconcile_body, bind, getPool.
  by rewrite Hname.
Qed.

(** The gate lets a pass through when the cluster pointer is nil or
    the cluster it points to has no name. *)
Lemma Reconcile_gate_unnamed (ipPoolMgr : ipam.IPPoolManagerInterface)
    (cluster : option clusterv1.Cluster) (s : state) :
  match cluster with
  | Some c => metav1.Name (clusterv1.ObjectMeta c) = ""
  | None => True
  end ->
  Reconcile_gate ipPoolMgr cluster s = (None, s).
Proof.
  intros Hc. unfold Reconcile_gate, bind, getPool, ret.
  destruct (ipamv1.ClusterName _); [|done].
  destruct cluster as [c|]; [|done]. by rewrite Hc.
Qed.

(** The gate for a named cluster whose owner reference is recorded
    without error: the pause test decides. *)
Lemma Reconcile_gate_named (ipPoolMgr : ipam.IPPoolManagerInterface)
    (cluster : clusterv1.Cluster) (s : state) (clusterName : string)
    (p1 : ipamv1.IPPool) :
  ipamv1.ClusterName (ipamv1.Spec (pool s)) = Some clusterName ->
  metav1.Name (clusterv1.ObjectMeta cluster) ≠ "" ->
  ipam.SetClusterOwnerRef ipPoolMgr cluster (pool s) = (p1, None) ->
  Reconcile_gate ipPoolMgr (Some cluster) s
  = (if IsPaused cluster p1
     then Some ({| ctrl.Requeue := true;
                   ctrl.RequeueAfter := requeueAfter |}, None)
     else None,
     {| pool := p1; calls := calls (logged Call_SetClusterOwnerRef s) |}).
Proof.
  intros Hname Hnamed Hown.
  unfold Reconcile_gate, invoke_SetClusterOwnerRef, bind, getPool,
    setPool, call, ret.
  rewrite Hname, (eqb_empty_false _ Hnamed). cbn [negb logged pool].
  rewrite Hown. cbn [pool]. by destruct (IsPaused cluster p1).
Qed.

(** With a manager and an open gate, the pass is one of the two
    paths. *)
Lemma Reconcile_manage_dispatch (r : IPPoolReconciler)
    (cluster : option clusterv1.Cluster) (s s2 : state)
    (ipPoolMgr : ipam.IPPoolManagerInterface) :
  ipam.NewIPPoolManager (ManagerFactory r) (pool s) = inl ipPoolMgr ->
  Reconcile_gate ipPoolMgr cluster (logged Call_NewIPPoolManager s)
  = (None, s2) ->
  Reconcile_manage r cluster s
  = if metav1.IsZero (DeletionTimestamp_of (pool s2))
    then reconcileNormal ipPoolMgr s2
    else reconcileDelete ipPoolMgr s2.
Proof.
  intros Hmgr Hgate. unfold Reconcile_manage, bind, getPool, call, ret.
  rewrite Hmgr, Hgate.
  by destruct (metav1.IsZero (DeletionTimestamp_of (pool s2))).
Qed.

(** C7.  A pool that names a cluster, whose cluster cannot be read and
    whose deletion timestamp is set, is not held back by the failed
    read: once the manager is built the body is the Delete path, so
    the pass calls [UpdateAddresses], never [SetClusterOwnerRef], and
    calls [UnsetFinalizer] exactly when [UpdateAddresses] reports no
    allocation and no error. *)
Theorem missing_owner_does_not_block_deletion (r : IPPoolReconciler)
    (req : ctrl.Request) (obj : ipamv1.IPPool) (helper : patch.Helper)
    (clusterName : string) (e : error)
    (ipPoolMgr : ipam.IPPoolManagerInterface) :
  client.Get_IPPool (Client r) (ctrl.NamespacedName req) = inl obj ->
  patch.NewHelper obj (Client r) = inl helper ->
  ipamv1.ClusterName (ipamv1.Spec obj) = Some clusterName ->
  client.Get_Cluster (Client r) (owner_key clusterName obj) = inr e ->
  metav1.IsZero (DeletionTimestamp_of obj) = false ->
  ipam.NewIPPoolManager (ManagerFactory r) (stampLabels clusterName obj)
  = inl ipPoolMgr ->
  let pass := Reconcile r req start in
  Reconcile_body r (fetched obj)
  = reconcileDelete ipPoolMgr
      (logged Call_NewIPPoolManager (resolved clusterName (fetched obj))) /\
  Call_UpdateAddresses ∈ called pass.2 /\
  (Call_SetClusterOwnerRef ∉ called pass.2) /\
  (Call_UnsetFinalizer ∈ called pass.2 <->
     exists p', ipam.UpdateAddresses ipPoolMgr (stampLabels clusterName obj)
                = (p', (0, None))).
Proof.
  intros Hget Hhelper Hname Hcluster Hdel Hmgr pass.
  assert (Reconcile_body r (fetched obj)
          = reconcileDelete ipPoolMgr
              (logged Call_NewIPPoolManager
                 (resolved clusterName (fetched obj)))) as Hbody.
  { rewrite (Reconcile_body_owner r (fetched obj) clusterName Hname).
    cbn [fetched pool]. rewrite Hcluster, Hdel.
    rewrite (Reconcile_manage_dispatch r (Some clusterv1.zero)
               (resolved clusterName (fetched obj)) _ ipPoolMgr Hmgr
               (Reconcile_gate_unnamed ipPoolMgr (Some clusterv1.zero) _
                  eq_refl)).
    cbn [logged resolved pool fetched].
    change (DeletionTimestamp_of (stampLabels clusterName obj))
      with (DeletionTimestamp_of obj).
    by rewrite Hdel. }
  split; [exact Hbody|].
  subst pass. rewrite (Reconcile_fetched r req obj helper Hget Hhelper).
  rewrite Hbody, reconcileDelete_eq.
  cbn [logged resolved pool fetched calls].
  destruct (ipam.UpdateAddresses ipPoolMgr (stampLabels clusterName obj))
    as [p' [n [err|]]]; cbn [fst snd calls logged].
  - change (called _) with
      [Call_Get_IPPool; Call_NewHelper; Call_Get_Cluster;
       Call_NewIPPoolManager; Call_UpdateAddresses; Call_Patch].
    split; [compute_done|]. split; [compute_done|].
    split; [intros Hin; exfalso; revert Hin; compute_done|].
    intros (p'' & Heq). discriminate.
  - destruct (Z.eqb_spec n 0) as [->|Hn]; cbn [fst snd calls logged].
    + change (called _) with
        [Call_Get_IPPool; Call_NewHelper; Call_Get_Cluster;
         Call_NewIPPoolManager; Call_UpdateAddresses;
         Call_UnsetFinalizer; Call_Patch].
      split; [compute_done|]. split; [compute_done|].
      split; [by eauto|]. intros _. compute_done.
    + change (called _) with
        [Call_Get_IPPool; Call_NewHelper; Call_Get_Cluster;
         Call_NewIPPoolManager; Call_UpdateAddresses; Call_Patch].
      split; [compute_done|]. split; [compute_done|].
      split; [intros Hin; exfalso; revert Hin; compute_done|].
      intros (p'' & Heq). congruence.
Qed.

(** C2, as the code has it.  A pool that names a cluster, is not
    marked for deletion, and whose cluster cannot be read: the pass
    calls no manager and ends with the empty result, which asks for
    no requeue, and with the error of the patch alone. *)
Theorem missing_owner_ends_pass_without_requeue (r : IPPoolReconciler)
    (req : ctrl.Request) (obj : ipamv1.IPPool) (helper : patch.Helper)
    (clusterName : string) (e : error) :
  client.Get_IPPool (Client r) (ctrl.NamespacedName req) = inl obj ->
  patch.NewHelper obj (Client r) = inl helper ->
  ipamv1.ClusterName (ipamv1.Spec obj) = Some clusterName ->
  client.Get_Cluster (Client r) (owner_key clusterName obj) = inr e ->
  metav1.IsZero (DeletionTimestamp_of obj) = true ->
  let pass := Reconcile r req start in
  called pass.2
  = [Call_Get_IPPool; Call_NewHelper; Call_Get_Cluster; Call_Patch] /\
  List.filter is_manager_call (called pass.2) = [] /\
  pass.1.1 = ctrl.empty /\
  pass.1.1 ≠ {| ctrl.Requeue := true; ctrl.RequeueAfter := requeueAfter |} /\
  pass.1.2 = patch.Patch helper (Client r) (stampLabels clusterName obj).
Proof.
  intros Hget Hhelper Hname Hcluster Hdel pass. subst pass.
  rewrite (Reconcile_fetched r req obj helper Hget Hhelper).
  rewrite (Reconcile_body_owner r (fetched obj) clusterName Hname).
  cbn [fetched pool]. rewrite Hcluster, Hdel.
  cbn zeta. cbn [fst snd logged resolved pool calls fetched].
  split; [reflexivity|]. split; [reflexivity|].
  by destruct (patch.Patch helper (Client r) (stampLabels clusterName obj)).
Qed.

(** C3, amended.  A pool that names a cluster, whose cluster is read
    and has a name, whose manager is built and records the owner
    without error: when the cluster or the pool is paused, the pass
    calls [SetClusterOwnerRef] and no other method of the manager, and
    returns a requeue after the fixed thirty seconds, with the error
    of the patch alone. *)
Theorem paused_owned_pool_is_requeued (r : IPPoolReconciler)
    (req : ctrl.Request) (obj : ipamv1.IPPool) (helper : patch.Helper)
    (clusterName : string) (cluster : clusterv1.Cluster)
    (ipPoolMgr : ipam.IPPoolManagerInterface) (p1 : ipamv1.IPPool) :
  client.Get_IPPool (Client r) (ctrl.NamespacedName req) = inl obj ->
  patch.NewHelper obj (Client r) = inl helper ->
  ipamv1.ClusterName (ipamv1.Spec obj) = Some clusterName ->
  client.Get_Cluster (Client r) (owner_key clusterName obj) = inl cluster ->
  metav1.Name (clusterv1.ObjectMeta cluster) ≠ "" ->
  ipam.NewIPPoolManager (ManagerFactory r) (stampLabels clusterName obj)
  = inl ipPoolMgr ->
  ipam.SetClusterOwnerRef ipPoolMgr cluster (stampLabels clusterName obj)
  = (p1, None) ->
  IsPaused cluster p1 = true ->
  let pass := Reconcile r req start in
  called pass.2
  = [Call_Get_IPPool; Call_NewHelper; Call_Get_Cluster;
     Call_NewIPPoolManager; Call_SetClusterOwnerRef; Call_Patch] /\
  List.filter is_manager_call (called pass.2) = [Call_SetClusterOwnerRef] /\
  pass.1.1 = {| ctrl.Requeue := true; ctrl.RequeueAfter := requeueAfter |} /\
  requeueAfter = 30 * 1000000000 /\
  pass.1.2 = patch.Patch helper (Client r) p1.
Proof.
  intros Hget Hhelper Hname Hcluster Hnamed Hmgr Hown Hpaused pass.
  subst pass.
  rewrite (Reconcile_fetched r req obj helper Hget Hhelper).
  rewrite (Reconcile_body_owner r (fetched obj) clusterName Hname).
  cbn [fetched pool]. rewrite Hcluster.
  unfold Reconcile_manage, bind, getPool, call, ret.
  cbn [resolved logged pool fetched]. rewrite Hmgr.
  rewrite (Reconcile_gate_named ipPoolMgr cluster
             (logged Call_NewIPPoolManager
                (resolved clusterName (fetched obj)))
             clusterName p1 Hname Hnamed Hown), Hpaused.
  cbn zeta. cbn [fst snd logged pool calls].
  split; [reflexivity|]. split; [reflexivity|].
  by destruct (patch.Patch helper (Client r) p1).
Qed.

(** C9, amended.  For every pool that names a cluster, the labels are
    written and the cluster is read.  When the cluster object the read
    leaves has no name, which is the case of a failed read, and the
    pass is not ended by a failed read on a pool that is not marked
    for deletion, the pass goes on as a pass without a reference does
    from there: no [SetClusterOwnerRef], no pause test, and, once the
    manager is built, the Normal or the Delete path. *)
Theorem unnamed_cluster_skips_gate (r : IPPoolReconciler) (s : state)
    (clusterName : string) :
  ipamv1.ClusterName (ipamv1.Spec (pool s)) = Some clusterName ->
  match client.Get_Cluster (Client r) (owner_key clusterName (pool s)) with
  | inl c => metav1.Name (clusterv1.ObjectMeta c) = ""
  | inr _ => metav1.IsZero (DeletionTimestamp_of (pool s)) = false
  end ->
  Reconcile_body r s = Reconcile_manage r None (resolved clusterName s) /\
  (forall ipPoolMgr,
     ipam.NewIPPoolManager (ManagerFactory r)
       (stampLabels clusterName (pool s)) = inl ipPoolMgr ->
     Reconcile_body r s
     = (if metav1.IsZero (DeletionTimestamp_of (pool s))
        then reconcileNormal ipPoolMgr
        else reconcileDelete ipPoolMgr)
         (logged Call_NewIPPoolManager (resolved clusterName s))) /\
  (forall s0,
     ipamv1.ClusterName (ipamv1.Spec (pool s0)) = None ->
     Reconcile_body r s0 = Reconcile_manage r None s0).
Proof.
  intros Hname Hfetch.
  assert (forall cluster,
            match cluster with
            | Some c => metav1.Name (clusterv1.ObjectMeta c) = ""
            | None => True
            end ->
            Reconcile_manage r cluster (resolved clusterName s)
            = Reconcile_manage r None (resolved clusterName s)) as Hskip.
  { intros cluster Hunnamed.
    unfold Reconcile_manage, bind, getPool, call, ret.
    destruct (ipam.NewIPPoolManager _ _) as [ipPoolMgr|err]; [|done].
    by rewrite !Reconcile_gate_unnamed. }
  assert (Reconcile_body r s
          = Reconcile_manage r None (resolved clusterName s)) as Hbody.
  { rewrite (Reconcile_body_owner r s clusterName Hname).
    destruct (client.Get_Cluster _ _) as [c|err].
    - by apply (Hskip (Some c)).
    - rewrite Hfetch. by apply (Hskip (Some clusterv1.zero)). }
  split; [exact Hbody|]. split; [|apply Reconcile_body_no_owner].
  intros ipPoolMgr Hmgr. rewrite Hbody.
  rewrite (Reconcile_manage_dispatch r None (resolved clusterName s) _
             ipPoolMgr Hmgr (Reconcile_gate_unnamed ipPoolMgr None _ I)).
  cbn [logged resolved pool].
  change (DeletionTimestamp_of (stampLabels clusterName (pool s)))
    with (DeletionTimestamp_of (pool s)).
  by destruct (metav1.IsZero (DeletionTimestamp_of (pool s))).
Qed.

(** ** The labels *)

Lemma stampLabels_lookup (clusterName : string) (p : ipamv1.IPPool) :
  ClusterNameLabel ≠ ProviderNameLabel ->
  exists labels : gmap string string,
    Labels_of (stampLabels clusterName p) = Some labels /\
    labels !! ClusterNameLabel = Some clusterName /\
    labels !! ProviderNameLabel = Some "ipam-metal3" /\
    (forall k, k ≠ ClusterNameLabel -> k ≠ ProviderNameLabel ->
       labels !! k = default ∅ (Labels_of p) !! k).
Proof.
  intros Hdistinct. eexists. split; [reflexivity|].
  split; [|split].
  - rewrite lookup_insert_ne by done. apply lookup_insert_eq.
  - apply lookup_insert_eq.
  - intros k Hk1 Hk2. by rewrite !lookup_insert_ne.
Qed.

(** From the creation of the manager on, only the manager writes to
    the pool: if it leaves the labels alone, they are left alone. *)
Lemma Reconcile_manage_keeps_Labels (r : IPPoolReconciler)
    (cluster : option clusterv1.Cluster) (s : state) :
  (forall ipPoolMgr,
     ipam.NewIPPoolManager (ManagerFactory r) (pool s) = inl ipPoolMgr ->
     keeps_Labels ipPoolMgr) ->
  Labels_of (pool (Reconcile_manage r cluster s).2) = Labels_of (pool s).
Proof.
  intros Hkeeps. unfold Reconcile_manage, bind, getPool, call, ret.
  destruct (ipam.NewIPPoolManager _ _) as [m|err] eqn:Hmgr; [|done].
  destruct (Hkeeps m eq_refl) as (Hown & Hset & Hunset & Hupd).
  assert (forall s', Labels_of (pool (reconcileDelete m s').2)
                     = Labels_of (pool s')) as Hdelete.
  { intros s'. rewrite reconcileDelete_eq. cbn zeta.
    specialize (Hupd (pool s')).
    destruct (ipam.UpdateAddresses m (pool s')) as [p' [n [e|]]];
      cbn [fst snd pool] in *; [done|].
    destruct (Z.eqb n 0); cbn [snd pool]; [|done].
    by rewrite Hunset. }
  assert (forall s', Labels_of (pool (reconcileNormal m s').2)
                     = Labels_of (pool s')) as Hnormal.
  { intros s'. rewrite reconcileNormal_eq. cbn zeta.
    specialize (Hupd (ipam.SetFinalizer m (pool s'))).
    destruct (ipam.UpdateAddresses m _) as [p' [n [e|]]];
      cbn [fst snd pool] in *; by rewrite Hupd, Hset. }
  assert (forall s',
            Labels_of (pool (Reconcile_gate m cluster s').2)
            = Labels_of (pool s')) as Hgate.
  { intros s'. unfold Reconcile_gate, invoke_SetClusterOwnerRef, bind,
      getPool, setPool, call, ret.
    destruct (ipamv1.ClusterName _); [|done].
    destruct cluster as [c|]; [|done].
    destruct (negb _); [|done]. cbn [logged pool].
    specialize (Hown c (pool s')).
    destruct (ipam.SetClusterOwnerRef m c (pool s')) as [p1 [e|]];
      cbn [fst snd pool] in *; [done|].
    by destruct (IsPaused c p1). }
  specialize (Hgate (logged Call_NewIPPoolManager s)).
  destruct (Reconcile_gate m cluster _) as [[out|] s2];
    cbn [fst snd pool logged] in *; [done|].
  destruct (negb _); by rewrite ?Hdelete, ?Hnormal.
Qed.

Lemma Reconcile_manage_calls (r : IPPoolReconciler)
    (cluster : option clusterv1.Cluster) :
  appends (fun _ => True) (Reconcile_manage r cluster).
Proof.
  unfold Reconcile_manage, Reconcile_gate, reconcileDelete,
    reconcileNormal, invoke_SetClusterOwnerRef, invoke_SetFinalizer,
    invoke_UnsetFinalizer, invoke_UpdateAddresses.
  repeat first
    [ apply appends_ret | apply appends_getPool | apply appends_setPool
    | apply appends_call; exact I
    | apply appends_bind; [|intros ?]
    | case_match ].
Qed.

(** C10.  For a pool that names a cluster, the pass writes the cluster
    name label, with the name of the cluster, and the provider label,
    with ipam-metal3, before it reads the cluster, and changes no other
    label; the cluster is read with these labels on the in-memory
    pool, and they are on the pool the patch is called with: on every
    pass whose manager, if one is built, leaves the labels alone, and
    in particular on the pass that the failed read of the cluster
    ends, where the patched pool is the fetched pool with the two
    labels. *)
Theorem owner_labels_are_stamped_before_fetch (r : IPPoolReconciler)
    (req : ctrl.Request) (obj : ipamv1.IPPool) (helper : patch.Helper)
    (clusterName : string) :
  ClusterNameLabel ≠ ProviderNameLabel ->
  client.Get_IPPool (Client r) (ctrl.NamespacedName req) = inl obj ->
  patch.NewHelper obj (Client r) = inl helper ->
  ipamv1.ClusterName (ipamv1.Spec obj) = Some clusterName ->
  let pass := Reconcile r req start in
  let stamped := stampLabels clusterName obj in
  (exists labels : gmap string string,
     Labels_of stamped = Some labels /\
     labels !! ClusterNameLabel = Some clusterName /\
     labels !! ProviderNameLabel = Some "ipam-metal3" /\
     (forall k, k ≠ ClusterNameLabel -> k ≠ ProviderNameLabel ->
        labels !! k = default ∅ (Labels_of obj) !! k)) /\
  (exists rest,
     calls pass.2
     = [(Call_Get_IPPool, ipamv1.zero); (Call_NewHelper, obj);
        (Call_Get_Cluster, stamped)] ++ rest) /\
  ((forall ipPoolMgr,
      ipam.NewIPPoolManager (ManagerFactory r) stamped = inl ipPoolMgr ->
      keeps_Labels ipPoolMgr) ->
   exists flushed,
     last (calls pass.2) = Some (Call_Patch, flushed) /\
     Labels_of flushed = Labels_of stamped) /\
  (forall e,
     client.Get_Cluster (Client r) (owner_key clusterName obj) = inr e ->
     metav1.IsZero (DeletionTimestamp_of obj) = true ->
     last (calls pass.2) = Some (Call_Patch, stamped)).
Proof.
  intros Hdistinct Hget Hhelper Hname pass stamped.
  split; [by apply stampLabels_lookup|].
  subst pass. rewrite (Reconcile_fetched r req obj helper Hget Hhelper).
  cbn zeta. cbn [snd logged calls].
  rewrite (Reconcile_body_owner r (fetched obj) clusterName Hname).
  cbn [fetched pool]. fold (fetched obj).
  assert (forall cluster,
            exists rest,
              calls (Reconcile_manage r cluster
                       (resolved clusterName (fetched obj))).2
              = [(Call_Get_IPPool, ipamv1.zero); (Call_NewHelper, obj);
                 (Call_Get_Cluster, stamped)] ++ rest) as Hprefix.
  { intros cluster.
    destruct (Reconcile_manage_calls r cluster
                (resolved clusterName (fetched obj))) as (new & -> & _).
    by exists new. }
  split; [|split].
  - destruct (client.Get_Cluster _ _) as [c|e].
    + destruct (Hprefix (Some c)) as (rest & ->).
      eexists. by rewrite <- app_assoc.
    + destruct (metav1.IsZero _).
      * by exists [(Call_Patch, stamped)].
      * destruct (Hprefix (Some clusterv1.zero)) as (rest & ->).
        eexists. by rewrite <- app_assoc.
  - intros Hkeeps. eexists. split; [apply last_snoc|].
    destruct (client.Get_Cluster _ _) as [c|e];
      [|destruct (metav1.IsZero _); [done|]];
      by rewrite Reconcile_manage_keeps_Labels.
  - intros e -> ->. apply last_snoc.
Qed.

(** ** The Normal path, twice *)

Lemma SetFinalizer_spec_present (p : ipamv1.IPPool) :
  IPPoolFinalizer ∈ Finalizers_of (SetFinalizer_spec p).
Proof.
  unfold SetFinalizer_spec. case_bool_decide as Hin; [done|].
  cbn. apply elem_of_app. right. by apply list_elem_of_singleton.
Qed.

Lemma SetFinalizer_spec_fixed (p : ipamv1.IPPool) :
  IPPoolFinalizer ∈ Finalizers_of p -> SetFinalizer_spec p = p.
Proof. intros Hin. unfold SetFinalizer_spec. by rewrite bool_decide_eq_true_2. Qed.

Lemma SetFinalizer_spec_idempotent (p : ipamv1.IPPool) :
  SetFinalizer_spec (SetFinalizer_spec p) = SetFinalizer_spec p.
Proof. apply SetFinalizer_spec_fixed, SetFinalizer_spec_present. Qed.

(** C8.  With the manager of this repository, the Normal path run
    twice in a row, the bookkeeping reporting the same count and the
    same error both times, leaves after the second run the finalizers
    and the labels (the whole metadata) the first run left, and
    returns the same result and error both times; setting the
    finalizer is idempotent, and the finalizer is present after the
    first run. *)
Theorem reconcileNormal_twice
    (ownerRef :
       clusterv1.Cluster -> ipamv1.IPPool -> ipamv1.IPPool * option error)
    (bookkeeping :
       ipamv1.IPPool -> ipamv1.IPPoolStatus * (Z * option error))
    (s0 : state) :
  (bookkeeping
     (SetFinalizer_spec
        (pool (reconcileNormal (IPPoolManager ownerRef bookkeeping) s0).2))).2
  = (bookkeeping (SetFinalizer_spec (pool s0))).2 ->
  let ipPoolMgr := IPPoolManager ownerRef bookkeeping in
  let first := reconcileNormal ipPoolMgr s0 in
  let second := reconcileNormal ipPoolMgr first.2 in
  second.1 = first.1 /\
  Finalizers_of (pool second.2) = Finalizers_of (pool first.2) /\
  Labels_of (pool second.2) = Labels_of (pool first.2) /\
  ipamv1.ObjectMeta (pool second.2) = ipamv1.ObjectMeta (pool first.2) /\
  IPPoolFinalizer ∈ Finalizers_of (pool first.2) /\
  (forall p,
     ipam.SetFinalizer ipPoolMgr (ipam.SetFinalizer ipPoolMgr p)
     = ipam.SetFinalizer ipPoolMgr p).
Proof.
  intros Hsame ipPoolMgr first second.
  assert (pool first.2
          = set_Status (bookkeeping (SetFinalizer_spec (pool s0))).1
                       (SetFinalizer_spec (pool s0)) /\
          first.1
          = match (bookkeeping (SetFinalizer_spec (pool s0))).2.2 with
            | Some e =>
                checkRequeueError (Some e)
                  "Failed to create the missing data"
            | None => (ctrl.empty, None)
            end) as [Hpool1 Hout1].
  { subst first ipPoolMgr. rewrite reconcileNormal_eq.
    cbn [IPPoolManager ipam.SetFinalizer ipam.UpdateAddresses pool].
    destruct (bookkeeping (SetFinalizer_spec (pool s0)))
      as [st [n [e|]]]; by cbn. }
  assert (IPPoolFinalizer ∈ Finalizers_of (pool first.2)) as Hpresent.
  { rewrite Hpool1. apply SetFinalizer_spec_present. }
  fold ipPoolMgr in Hsame. fold first in Hsame.
  assert (ipamv1.ObjectMeta (pool second.2)
          = ipamv1.ObjectMeta (pool first.2) /\ second.1 = first.1)
    as [Hmeta Hout].
  { subst second. rewrite reconcileNormal_eq.
    cbn [IPPoolManager ipPoolMgr ipam.SetFinalizer ipam.UpdateAddresses
         pool].
    rewrite Hout1, <- Hsame.
    rewrite (SetFinalizer_spec_fixed _ Hpresent).
    destruct (bookkeeping (pool first.2)) as [st [n [e|]]]; by cbn. }
  split; [exact Hout|].
  split; [unfold Finalizers_of; by rewrite Hmeta|].
  split; [unfold Labels_of; by rewrite Hmeta|].
  split; [exact Hmeta|].
  split; [exact Hpresent|].
  intros p. apply SetFinalizer_spec_idempotent.
Qed.
End PassProperties.

(** ** The scenarios *)

Lemma fakeManager_keeps_Labels `{Imports} (allocationsNb : Z)
    (err : option error) :
  keeps_Labels (fakeManager allocationsNb err).
Proof.
  split; [done|]. split; [|split; [done|done]].
  intros p. cbn. unfold SetFinalizer_spec. by case_bool_decide.
Qed.

(** Scenario P2 at the return statement: deletion marked, two addresses
    allocated; the finalizer stays and the empty result is returned. *)
Lemma deletion_unsets_finalizer_iff_no_allocation_witness :
  (Reconcile_manage (H := cluster_api)
     (reconciler_over P2 [] None 2 None) None (fetched P2)).1
  = (ctrl.empty, None) /\
  Finalizers_of
    (pool (Reconcile_manage (H := cluster_api)
             (reconciler_over P2 [] None 2 None) None (fetched P2)).2)
  = [finalizer].
Proof.
  destruct (deletion_unsets_finalizer_iff_no_allocation (H := cluster_api)
              (reconciler_over P2 [] None 2 None) None (fetched P2)
              (logged Call_NewIPPoolManager (fetched P2))
              (manager_of 2 None) P2 2
              eq_refl eq_refl eq_refl eq_refl)
    as (new & _ & _ & Hout & _ & Hnz).
  split; [exact Hout|].
  destruct (Hnz ltac:(discriminate)) as [_ Hpool]. by rewrite Hpool.
Defined.

(** A pass on P1 whose patch is refused returns the error of the patch,
    though its body returned none. *)
Lemma patch_is_flushed_on_every_exit_witness :
  (Reconcile_body (H := cluster_api)
     (reconciler_over P1 [] (Some (errorString "conflict")) 0 None)
     (fetched P1)).1 = (ctrl.empty, None) /\
  (pass_over P1 [] (Some (errorString "conflict")) 0 None).1.2
  = Some (errorString "conflict").
Proof.
  destruct (patch_is_flushed_on_every_exit (H := cluster_api)
              (reconciler_over P1 [] (Some (errorString "conflict")) 0 None)
              (request_of P1) P1 {| patch.beforeObject := P1 |}
              eq_refl eq_refl)
    as (_ & _ & _ & Herr & _).
  split; [reflexivity|]. exact (Herr _ eq_refl).
Defined.

(** The pool [orphan]: its cluster is gone and it is marked for
    deletion; the pass updates the addresses and unsets the finalizer. *)
Lemma missing_owner_does_not_block_deletion_witness :
  Call_UpdateAddresses ∈ called (pass_over orphan [] None 0 None).2 /\
  Call_UnsetFinalizer ∈ called (pass_over orphan [] None 0 None).2.
Proof.
  destruct (missing_owner_does_not_block_deletion (H := cluster_api)
              (reconciler_over orphan [] None 0 None) (request_of orphan)
              orphan {| patch.beforeObject := orphan |} "gone"
              (errorString "not found") (manager_of 0 None)
              eq_refl eq_refl eq_refl eq_refl eq_refl eq_refl)
    as (_ & Hupd & _ & Hunset).
  split; [exact Hupd|].
  apply Hunset. by exists (stamped_with "gone" orphan).
Defined.

(** The pool [waiting]: its cluster is not there yet; the pass ends with
    the empty result after the read of the cluster. *)
Lemma missing_owner_ends_pass_without_requeue_witness :
  called (pass_over waiting [] None 0 None).2
  = [Call_Get_IPPool; Call_NewHelper; Call_Get_Cluster; Call_Patch] /\
  (pass_over waiting [] None 0 None).1.1 = ctrl.empty.
Proof.
  destruct (missing_owner_ends_pass_without_requeue (H := cluster_api)
              (reconciler_over waiting [] None 0 None) (request_of waiting)
              waiting {| patch.beforeObject := waiting |} "later"
              (errorString "not found")
              eq_refl eq_refl eq_refl eq_refl eq_refl)
    as (Hcalled & _ & Hres & _).
  split; [exact Hcalled | exact Hres].
Defined.

(** The pool [owned], whose cluster is paused. *)
Lemma paused_owned_pool_is_requeued_witness :
  (pass_over owned [c1] None 0 None).1.1
  = {| ctrl.Requeue := true; ctrl.RequeueAfter := 30000000000 |} /\
  (pass_over owned [c1] None 0 None).1.2 = None /\
  called (pass_over owned [c1] None 0 None).2
  = [Call_Get_IPPool; Call_NewHelper; Call_Get_Cluster;
     Call_NewIPPoolManager; Call_SetClusterOwnerRef; Call_Patch].
Proof.
  destruct (paused_owned_pool_is_requeued (H := cluster_api)
              (reconciler_over owned [c1] None 0 None) (request_of owned)
              owned {| patch.beforeObject := owned |} "c1" c1
              (manager_of 0 None) (stamped_with "c1" owned)
              eq_refl eq_refl eq_refl eq_refl ltac:(discriminate)
              eq_refl eq_refl eq_refl)
    as (Hcalled & _ & Hres & _ & Herr).
  split; [exact Hres|]. split; [exact Herr | exact Hcalled].
Defined.

(** The pool [blank_deleted]: the read of a cluster with an empty name
    fails, the pool is marked for deletion, and the pass is the Delete
    path. *)
Lemma unnamed_cluster_skips_gate_witness :
  Reconcile_body (H := cluster_api)
    (reconciler_over blank_deleted [] None 0 None) (fetched blank_deleted)
  = reconcileDelete (manager_of 0 None)
      (logged Call_NewIPPoolManager
         (resolved (H := cluster_api) "" (fetched blank_deleted))).
Proof.
  destruct (unnamed_cluster_skips_gate (H := cluster_api)
              (reconciler_over blank_deleted [] None 0 None)
              (fetched blank_deleted) "" eq_refl eq_refl)
    as (_ & Hpath & _).
  exact (Hpath (manager_of 0 None) eq_refl).
Defined.

(** The labels of [waiting] and of [orphan] reach the patch. *)
Lemma owner_labels_are_stamped_before_fetch_witness :
  last (calls (pass_over waiting [] None 0 None).2)
  = Some (Call_Patch, stamped_with "later" waiting) /\
  exists flushed,
    last (calls (pass_over orphan [] None 0 None).2)
    = Some (Call_Patch, flushed) /\
    Labels_of flushed = Labels_of (stamped_with "gone" orphan).
Proof.
  destruct (owner_labels_are_stamped_before_fetch (H := cluster_api)
              (reconciler_over waiting [] None 0 None) (request_of waiting)
              waiting {| patch.beforeObject := waiting |} "later"
              ltac:(discriminate) eq_refl eq_refl eq_refl)
    as (_ & _ & _ & Hfailed).
  destruct (owner_labels_are_stamped_before_fetch (H := cluster_api)
              (reconciler_over orphan [] None 0 None) (request_of orphan)
              orphan {| patch.beforeObject := orphan |} "gone"
              ltac:(discriminate) eq_refl eq_refl eq_refl)
    as (_ & _ & Hkept & _).
  split.
  - exact (Hfailed (errorString "not found") eq_refl eq_refl).
  - apply Hkept. intros ipPoolMgr Hmgr.
    injection Hmgr as <-. apply fakeManager_keeps_Labels.
Defined.

(** Scenario P1, twice. *)
Lemma reconcileNormal_twice_witness :
  (reconcileNormal (manager_of 0 None)
     (reconcileNormal (manager_of 0 None) (fetched P1)).2).1
  = (reconcileNormal (manager_of 0 None) (fetched P1)).1 /\
  Finalizers_of
    (pool (reconcileNormal (manager_of 0 None)
             (reconcileNormal (manager_of 0 None) (fetched P1)).2).2)
  = Finalizers_of
      (pool (reconcileNormal (manager_of 0 None) (fetched P1)).2) /\
  finalizer ∈
    Finalizers_of (pool (reconcileNormal (manager_of 0 None) (fetched P1)).2).
Proof.
  destruct (reconcileNormal_twice (H := cluster_api)
              (fun _ p => (p, None))
              (fun p => (ipamv1.Status p, (0, None)))
              (fetched P1) eq_refl)
    as (Hout & Hfin & _ & _ & Hpresent & _).
  split; [exact Hout|]. split; [exact Hfin | exact Hpresent].
Defined.

(** ** Where the specification and the code part *)

(** C3 as stated fails: the pool [alone] carries the paused annotation
    and names no cluster; the pass sets the finalizer, updates the
    addresses and returns the empty result, not a requeue. *)
Lemma paused_pool_without_owner_is_reconciled :
  HasPaused (H := cluster_api) alone = true /\
  ipamv1.ClusterName (ipamv1.Spec alone) = None /\
  called (pass_over alone [] None 0 None).2
  = [Call_Get_IPPool; Call_NewHelper; Call_NewIPPoolManager;
     Call_SetFinalizer; Call_UpdateAddresses; Call_Patch] /\
  Call_UpdateAddresses ∈ called (pass_over alone [] None 0 None).2 /\
  (pass_over alone [] None 0 None).1 = (ctrl.empty, None) /\
  (pass_over alone [] None 0 None).1.1
  ≠ {| ctrl.Requeue := true; ctrl.RequeueAfter := requeueAfter |}.
Proof.
  split; [by vm_compute|]. split; [reflexivity|].
  split; [by vm_compute|]. split; [compute_done|].
  split; [by vm_compute|]. by vm_compute.
Qed.

(** C9 as stated fails: the pool [blank] names the empty string and is
    not marked for deletion; the read of the cluster fails and the pass
    ends there, with the two labels written and no path taken, while
    the same pool without the reference takes the Normal path and gets
    no label. *)
Lemma empty_cluster_name_is_not_no_owner :
  ipamv1.ClusterName (ipamv1.Spec blank) = Some "" /\
  called (pass_over blank [] None 0 None).2
  = [Call_Get_IPPool; Call_NewHelper; Call_Get_Cluster; Call_Patch] /\
  called (pass_over blank_unowned [] None 0 None).2
  = [Call_Get_IPPool; Call_NewHelper; Call_NewIPPoolManager;
     Call_SetFinalizer; Call_UpdateAddresses; Call_Patch] /\
  Finalizers_of (pool (pass_over blank [] None 0 None).2) = [] /\
  Finalizers_of (pool (pass_over blank_unowned [] None 0 None).2)
  = [finalizer] /\
  Labels_of (pool (pass_over blank [] None 0 None).2)
  = Some (<["cluster.x-k8s.io/provider" := "ipam-metal3"]>
            (<["cluster.x-k8s.io/cluster-name" := ""]> ∅)) /\
  Labels_of (pool (pass_over blank_unowned [] None 0 None).2) = None.
Proof.
  split; [reflexivity|]. split; [by vm_compute|]. split; [by vm_compute|].
  split; [by vm_compute|]. split; [by vm_compute|].
  split; [reflexivity|]. by vm_compute.
Qed.

(** * Further properties of the controller *)

Ltac split_pair_eqs :=
  repeat match goal with
    | Hp : (_, _) = (_, _) |- _ =>
        apply pair_equal_spec in Hp; destruct Hp; subst
    end.

Ltac log_leaf :=
  eexists; split;
    [ unfold called, logged in *; cbn [calls pool fst snd];
      rewrite ?fmap_app, <- ?app_assoc; cbn [fmap list_fmap app fst];
      reflexivity
    | compute_done ].

Section FurtherProperties.
Context `{Imports}.

(** The calls the manager stage appends. *)
Lemma Reconcile_manage_log (r : IPPoolReconciler)
    (cluster : option clusterv1.Cluster) (s : state) :
  exists tail : list Call,
    called (Reconcile_manage r cluster s).2 = called s ++ tail /\
    tail ∈ manage_logs (bool_decide (is_Some cluster)).
Proof.
  unfold Reconcile_manage, Reconcile_gate, reconcileDelete, reconcileNormal,
    invoke_SetClusterOwnerRef, invoke_SetFinalizer, invoke_UnsetFinalizer,
    invoke_UpdateAddresses, bind, ret, call, getPool, setPool.
  destruct cluster as [c|];
    repeat first [progress split_pair_eqs | case_match];
    log_leaf.
Qed.

(** The calls the body appends. *)
Lemma Reconcile_body_log (r : IPPoolReconciler) (s : state) :
  exists new : list Call,
    called (Reconcile_body r s).2 = called s ++ new /\ new ∈ body_logs.
Proof.
  unfold Reconcile_body, Reconcile_manage, Reconcile_gate, reconcileDelete,
    reconcileNormal, invoke_SetClusterOwnerRef, invoke_SetFinalizer,
    invoke_UnsetFinalizer, invoke_UpdateAddresses, bind, ret, call, getPool,
    setPool.
  repeat first [progress split_pair_eqs | case_match]; log_leaf.
Qed.

(** X1.  The calls of a pass, in order, are one of the fifteen sequences
    of [pass_logs]: the read of the pool; then the patch helper; then
    the body, closed by the patch, where the body reads the cluster
    when the pool names one, creates the manager, records the owner when
    a named cluster is at hand, and takes one of the two paths. *)
Theorem Reconcile_log_is_a_pass_log (r : IPPoolReconciler)
    (req : ctrl.Request) :
  called (Reconcile r req start).2 ∈ pass_logs.
Proof.
  unfold Reconcile, bind, ret, call, getPool, setPool.
  destruct (client.Get_IPPool _ _) as [obj|err].
  - destruct (patch.NewHelper obj (Client r)) as [helper|err].
    + set (s1 := logged Call_NewHelper _).
      destruct (Reconcile_body_log r s1) as (new & Hnew & Hin).
      destruct (Reconcile_body r s1) as [out sb]. cbn [snd] in Hnew.
      assert (called (logged Call_Patch sb)
              = Call_Get_IPPool :: Call_NewHelper :: new ++ [Call_Patch])
        as Hlog.
      { unfold called, logged in *. cbn [calls]. by rewrite fmap_app, Hnew. }
      assert (Call_Get_IPPool :: Call_NewHelper :: new ++ [Call_Patch]
              ∈ pass_logs) as Hpass.
      { unfold pass_logs. do 2 apply list_elem_of_further.
        apply list_elem_of_In, in_map_iff. exists new.
        split; [done|]. by apply list_elem_of_In. }
      destruct (patch.Patch helper (Client r) _); cbn [snd];
        by rewrite Hlog.
    + cbn. compute_done.
  - destruct (IsNotFound err); cbn; compute_done.
Qed.

(** X2.  On every path of the body, from any state: the addresses are
    updated at most once; the finalizer is not both set and unset; a
    finalizer call comes with an update of the addresses; a method of
    the manager is called only after the manager was created in this
    pass; the body neither reads the pool nor patches it. *)
Theorem Reconcile_body_call_discipline (r : IPPoolReconciler) (s : state) :
  exists new : list Call,
    called (Reconcile_body r s).2 = called s ++ new /\
    (count_occ Call_eq_dec new Call_UpdateAddresses <= 1)%nat /\
    ~ (Call_SetFinalizer ∈ new /\ Call_UnsetFinalizer ∈ new) /\
    (Call_SetFinalizer ∈ new \/ Call_UnsetFinalizer ∈ new ->
       Call_UpdateAddresses ∈ new) /\
    (forall (i : nat) (c : Call),
       new !! i = Some c -> is_manager_call c = true ->
       Call_NewIPPoolManager ∈ take i new) /\
    (Call_Get_IPPool ∉ new) /\ (Call_Patch ∉ new).
Proof.
  destruct (Reconcile_body_log r s) as (new & Hnew & Hin).
  exists new. split; [exact Hnew|]. clear Hnew.
  cbv [body_logs manage_logs path_logs List.map app] in Hin.
  repeat (apply elem_of_cons in Hin as [->|Hin]);
    [..|by apply elem_of_nil in Hin];
    (split; [compute_done|]); (split; [compute_done|]);
    (split; [first [ intros _; compute_done
                   | intros [Hc|Hc]; exfalso; revert Hc; compute_done ]|]);
    (split; [|split; compute_done]);
    intros i c Hi Hm;
    repeat (destruct i as [|i]; cbn in Hi;
            [injection Hi as <-; first [discriminate Hm | compute_done]|]);
    discriminate Hi.
Qed.

(** What the classifier returns has one of the three forms. *)
Lemma checkRequeueError_form (err : option error) (errMessage : string) :
  result_form (checkRequeueError err errMessage).
Proof.
  unfold checkRequeueError, result_form.
  destruct err as [e|]; [|by left].
  destruct (errors.As e) as [d|]; eauto.
Qed.

Lemma returns_ret {A : Type} (Q : A -> Prop) (x : A) :
  Q x -> returns Q (ret x).
Proof. by intros Hx s. Qed.

Lemma returns_bind {A B : Type} (Q1 : A -> Prop) (Q : B -> Prop)
    (m : M A) (f : A -> M B) :
  returns Q1 m -> (forall a, Q1 a -> returns Q (f a)) ->
  returns Q (bind m f).
Proof.
  intros Hm Hf s. unfold bind. specialize (Hm s).
  destruct (m s) as [a s1]. by apply Hf.
Qed.

Lemma returns_any {A : Type} (m : M A) : returns (fun _ => True) m.
Proof. by intros s. Qed.

(** When the gate ends the pass, it does so with one of the forms. *)
Lemma Reconcile_gate_returns (ipPoolMgr : ipam.IPPoolManagerInterface)
    (cluster : option clusterv1.Cluster) :
  returns (fun gate =>
             match gate with
             | Some out => result_form out
             | None => True
             end)
          (Reconcile_gate ipPoolMgr cluster).
Proof.
  unfold Reconcile_gate.
  apply (returns_bind (fun _ => True)); [apply returns_any|].
  intros p _. destruct (ipamv1.ClusterName _); [|by apply returns_ret].
  destruct cluster as [c|]; [|by apply returns_ret].
  destruct (negb _); [|by apply returns_ret].
  apply (returns_bind (fun _ => True)); [apply returns_any|].
  intros [e|] _.
  - apply returns_ret. right. left. by exists e.
  - apply (returns_bind (fun _ => True)); [apply returns_any|].
    intros p1 _. destruct (IsPaused c p1); apply returns_ret; [|done].
    right. right. by exists requeueAfter.
Qed.

(** X3.  Whatever the collaborators do, the body returns success, or a
    fatal error with the empty result, or a requeue without error: a
    requeue never comes with an error, and a result that asks for no
    requeue carries no delay. *)
Theorem Reconcile_body_result_form (r : IPPoolReconciler) (s : state) :
  result_form (Reconcile_body r s).1 /\
  (let out := (Reconcile_body r s).1 in
   (ctrl.Requeue out.1 = true -> out.2 = None) /\
   (ctrl.Requeue out.1 = false -> ctrl.RequeueAfter out.1 = 0)).
Proof.
  assert (forall ipPoolMgr, returns result_form (reconcileNormal ipPoolMgr))
    as Hnormal.
  { intros m s'. rewrite reconcileNormal_eq. cbn zeta.
    destruct (ipam.UpdateAddresses m _) as [p' [n [e|]]]; cbn [fst].
    - apply checkRequeueError_form.
    - by left. }
  assert (forall ipPoolMgr, returns result_form (reconcileDelete ipPoolMgr))
    as Hdelete.
  { intros m s'. rewrite reconcileDelete_eq. cbn zeta.
    destruct (ipam.UpdateAddresses m _) as [p' [n [e|]]]; cbn [fst].
    - apply checkRequeueError_form.
    - destruct (Z.eqb n 0); by left. }
  assert (forall cluster, returns result_form (Reconcile_manage r cluster))
    as Hmanage.
  { intros cluster. unfold Reconcile_manage.
    apply (returns_bind (fun _ => True)); [apply returns_any|].
    intros p _.
    apply (returns_bind (fun _ => True)); [apply returns_any|].
    intros _ _.
    destruct (ipam.NewIPPoolManager _ _) as [m|err].
    - eapply returns_bind; [apply Reconcile_gate_returns|].
      intros [out|] Hout; [by apply returns_ret|].
      apply (returns_bind (fun _ => True)); [apply returns_any|].
      intros p2 _. by destruct (negb _).
    - apply returns_ret. right. left. eauto. }
  assert (result_form (Reconcile_body r s).1) as Hform.
  { destruct (ipamv1.ClusterName (ipamv1.Spec (pool s)))
      as [clusterName|] eqn:Hname.
    - rewrite (Reconcile_body_owner r s clusterName Hname).
      destruct (client.Get_Cluster _ _) as [c|e]; [apply Hmanage|].
      destruct (metav1.IsZero _); [by left|apply Hmanage].
    - rewrite (Reconcile_body_no_owner r s Hname). apply Hmanage. }
  split; [exact Hform|].
  destruct Hform as [->|[(e & ->)|(d & ->)]]; cbn; by split.
Qed.

(** ** The exits before the two paths *)

(** X4.  When the pool cannot be read the pass ends at once: nothing but
    the read is called, so no manager is created and nothing is
    patched; the result is empty; a not-found error is swallowed and
    any other error is returned as it is, neither wrapped nor
    classified. *)
Theorem pool_fetch_failure_ends_pass (r : IPPoolReconciler)
    (req : ctrl.Request) (err : error) :
  client.Get_IPPool (Client r) (ctrl.NamespacedName req) = inr err ->
  let pass := Reconcile r req start in
  called pass.2 = [Call_Get_IPPool] /\
  pool pass.2 = ipamv1.zero /\
  pass.1.1 = ctrl.empty /\
  (IsNotFound err = true -> pass.1.2 = None) /\
  (IsNotFound err = false -> pass.1.2 = Some err).
Proof.
  intros Hget pass. subst pass.
  unfold Reconcile, bind, ret, call, getPool, setPool. rewrite Hget.
  destruct (IsNotFound err); cbn; repeat split; done.
Qed.

(** X5.  When the pool is read but the patch helper cannot be built,
    the pass ends before the deferred patch is registered: the patch is
    not called, nor anything else, the pool is left as it was read, and
    the error is returned wrapped with the message of the helper. *)
Theorem helper_failure_ends_pass_without_patch (r : IPPoolReconciler)
    (req : ctrl.Request) (obj : ipamv1.IPPool) (err : error) :
  client.Get_IPPool (Client r) (ctrl.NamespacedName req) = inl obj ->
  patch.NewHelper obj (Client r) = inr err ->
  let pass := Reconcile r req start in
  called pass.2 = [Call_Get_IPPool; Call_NewHelper] /\
  (Call_Patch ∉ called pass.2) /\
  pool pass.2 = obj /\
  pass.1 = (ctrl.empty,
            Some (withMessage err "failed to init patch helper")).
Proof.
  intros Hget Hhelper pass. subst pass.
  unfold Reconcile, bind, ret, call, getPool, setPool.
  rewrite Hget, Hhelper. cbn.
  split; [done|]. split; [compute_done|]. done.
Qed.

(** The body, for a fetched pool, up to the creation of the manager. *)
Lemma Reconcile_body_at_manager (r : IPPoolReconciler)
    (obj : ipamv1.IPPool) :
  Reconcile_body r (fetched obj)
  = match cluster_at_gate r obj with
    | Some cluster => Reconcile_manage r cluster (at_manager obj)
    | None => ((ctrl.empty, None), at_manager obj)
    end.
Proof.
  unfold cluster_at_gate, at_manager.
  destruct (ipamv1.ClusterName (ipamv1.Spec obj)) as [clusterName|] eqn:Hname.
  - rewrite (Reconcile_body_owner r (fetched obj) clusterName Hname).
    cbn [fetched pool].
    destruct (client.Get_Cluster _ _) as [c|e]; [done|].
    by destruct (metav1.IsZero _).
  - by rewrite (Reconcile_body_no_owner r (fetched obj) Hname).
Qed.

Lemma pool_at_manager (obj : ipamv1.IPPool) :
  pool (at_manager obj) = own_writes obj.
Proof.
  unfold at_manager, own_writes.
  by destruct (ipamv1.ClusterName (ipamv1.Spec obj)).
Qed.

Lemma called_at_manager (obj : ipamv1.IPPool) :
  List.filter is_manager_call (called (at_manager obj)) = [].
Proof.
  unfold at_manager.
  by destruct (ipamv1.ClusterName (ipamv1.Spec obj)).
Qed.

(** X6.  When the pass gets to the creation of the manager and the
    factory fails, no method of a manager is called, the pass returns
    the empty result with an error in every case (the error of the
    factory, wrapped, unless the patch fails too), and the patch is
    still called, with the pool carrying what the controller wrote
    itself. *)
Theorem factory_failure_fails_pass (r : IPPoolReconciler)
    (req : ctrl.Request) (obj : ipamv1.IPPool) (helper : patch.Helper)
    (cluster : option clusterv1.Cluster) (err : error) :
  client.Get_IPPool (Client r) (ctrl.NamespacedName req) = inl obj ->
  patch.NewHelper obj (Client r) = inl helper ->
  cluster_at_gate r obj = Some cluster ->
  ipam.NewIPPoolManager (ManagerFactory r) (own_writes obj) = inr err ->
  let pass := Reconcile r req start in
  List.filter is_manager_call (called pass.2) = [] /\
  last (calls pass.2) = Some (Call_Patch, own_writes obj) /\
  pass.1.1 = ctrl.empty /\
  pass.1.2
  = Some (match patch.Patch helper (Client r) (own_writes obj) with
          | Some patchErr => patchErr
          | None =>
              withMessage err
                "failed to create helper for managing the IP pool"
          end).
Proof.
  intros Hget Hhelper Hgate Hmgr pass. subst pass.
  rewrite (Reconcile_fetched r req obj helper Hget Hhelper).
  rewrite Reconcile_body_at_manager, Hgate.
  unfold Reconcile_manage, bind, ret, call, getPool.
  rewrite pool_at_manager, Hmgr. cbn zeta.
  cbn [fst snd logged pool calls]. rewrite pool_at_manager.
  split.
  { unfold called, logged. cbn [calls]. rewrite !fmap_app, !List.filter_app.
    fold (called (at_manager obj)). by rewrite called_at_manager. }
  split; [apply last_snoc|].
  by destruct (patch.Patch helper (Client r) (own_writes obj)).
Qed.

(** The gate when the owner cannot be recorded. *)
Lemma Reconcile_gate_owner_error (ipPoolMgr : ipam.IPPoolManagerInterface)
    (cluster : clusterv1.Cluster) (s : state) (clusterName : string)
    (p1 : ipamv1.IPPool) (e : error) :
  ipamv1.ClusterName (ipamv1.Spec (pool s)) = Some clusterName ->
  metav1.Name (clusterv1.ObjectMeta cluster) ≠ "" ->
  ipam.SetClusterOwnerRef ipPoolMgr cluster (pool s) = (p1, Some e) ->
  Reconcile_gate ipPoolMgr (Some cluster) s
  = (Some (ctrl.empty, Some e),
     {| pool := p1; calls := calls (logged Call_SetClusterOwnerRef s) |}).
Proof.
  intros Hname Hnamed Hown.
  unfold Reconcile_gate, invoke_SetClusterOwnerRef, bind, getPool,
    setPool, call, ret.
  rewrite Hname, (eqb_empty_false _ Hnamed). cbn [negb logged pool].
  by rewrite Hown.
Qed.

(** X7.  When the manager cannot record the owner, the pass ends there:
    neither finalizer call nor update of the addresses follows, and the
    error is returned as it is, not through the classifier; so even an
    error that carries a requeue delay gives the empty result and a
    failed pass. *)
Theorem owner_ref_error_is_returned_raw (r : IPPoolReconciler)
    (req : ctrl.Request) (obj : ipamv1.IPPool) (helper : patch.Helper)
    (clusterName : string) (cluster : clusterv1.Cluster)
    (ipPoolMgr : ipam.IPPoolManagerInterface) (p1 : ipamv1.IPPool)
    (e : error) :
  client.Get_IPPool (Client r) (ctrl.NamespacedName req) = inl obj ->
  patch.NewHelper obj (Client r) = inl helper ->
  ipamv1.ClusterName (ipamv1.Spec obj) = Some clusterName ->
  client.Get_Cluster (Client r) (owner_key clusterName obj) = inl cluster ->
  metav1.Name (clusterv1.ObjectMeta cluster) ≠ "" ->
  ipam.NewIPPoolManager (ManagerFactory r) (stampLabels clusterName obj)
  = inl ipPoolMgr ->
  ipam.SetClusterOwnerRef ipPoolMgr cluster (stampLabels clusterName obj)
  = (p1, Some e) ->
  let pass := Reconcile r req start in
  called pass.2
  = [Call_Get_IPPool; Call_NewHelper; Call_Get_Cluster;
     Call_NewIPPoolManager; Call_SetClusterOwnerRef; Call_Patch] /\
  pass.1.1 = ctrl.empty /\
  pass.1.2
  = Some (match patch.Patch helper (Client r) p1 with
          | Some patchErr => patchErr
          | None => e
          end) /\
  (forall d, HasRequeueAfterError e d ->
     pass.1.1 ≠ {| ctrl.Requeue := true; ctrl.RequeueAfter := d |}).
Proof.
  intros Hget Hhelper Hname Hcluster Hnamed Hmgr Hown pass. subst pass.
  rewrite (Reconcile_fetched r req obj helper Hget Hhelper).
  rewrite (Reconcile_body_owner r (fetched obj) clusterName Hname).
  cbn [fetched pool]. rewrite Hcluster.
  unfold Reconcile_manage, bind, getPool, call, ret.
  cbn [resolved logged pool fetched]. rewrite Hmgr.
  rewrite (Reconcile_gate_owner_error ipPoolMgr cluster
             (logged Call_NewIPPoolManager
                (resolved clusterName (fetched obj)))
             clusterName p1 e Hname Hnamed Hown).
  cbn zeta. cbn [fst snd logged pool calls].
  split; [reflexivity|].
  destruct (patch.Patch helper (Client r) p1); cbn; by repeat split.
Qed.

(** ** The two paths *)

(** X8.  On the Delete path an error of [UpdateAddresses] keeps the
    finalizer, whatever count comes with it, zero included:
    [UnsetFinalizer] is not called and the pool stays as
    [UpdateAddresses] left it; the error is classified, a requeue delay
    giving a requeue without error and any other error a failed pass. *)
Theorem reconcileDelete_error_keeps_finalizer
    (ipPoolMgr : ipam.IPPoolManagerInterface) (s : state)
    (p' : ipamv1.IPPool) (allocationsNb : Z) (e : error) :
  ipam.UpdateAddresses ipPoolMgr (pool s) = (p', (allocationsNb, Some e)) ->
  let run := reconcileDelete ipPoolMgr s in
  called run.2 = called s ++ [Call_UpdateAddresses] /\
  pool run.2 = p' /\
  (forall d, HasRequeueAfterError e d ->
     run.1 = ({| ctrl.Requeue := true; ctrl.RequeueAfter := d |}, None)) /\
  ((forall d, ~ HasRequeueAfterError e d) ->
     run.1 = (ctrl.empty,
              Some (withMessage e "Failed to delete the old secrets"))).
Proof.
  intros Hupd run. subst run. rewrite reconcileDelete_eq, Hupd.
  cbn zeta. cbn [fst snd pool calls].
  split; [unfold called, logged; cbn [calls]; by rewrite fmap_app|].
  split; [done|].
  unfold checkRequeueError. split.
  - intros d Hd. apply As_HasRequeueAfterError in Hd. by rewrite Hd.
  - intros Hno. apply As_None_no_capability in Hno. by rewrite Hno.
Qed.

(** X9.  The Normal path sets the finalizer first and then updates the
    addresses, on the pool with the finalizer set, exactly once each and
    whatever the update returns, so the finalizer is set also when the
    update fails; it never unsets the finalizer; the count is ignored,
    and what is returned is the classification of the error alone. *)
Theorem reconcileNormal_sets_finalizer_first
    (ipPoolMgr : ipam.IPPoolManagerInterface) (s : state) :
  let updated :=
    ipam.UpdateAddresses ipPoolMgr (ipam.SetFinalizer ipPoolMgr (pool s)) in
  let run := reconcileNormal ipPoolMgr s in
  calls run.2
  = calls s ++ [(Call_SetFinalizer, pool s);
                (Call_UpdateAddresses, ipam.SetFinalizer ipPoolMgr (pool s))]
  /\
  pool run.2 = updated.1 /\
  run.1 = checkRequeueError updated.2.2 "Failed to create the missing data".
Proof.
  intros updated run. subst run updated. rewrite reconcileNormal_eq.
  cbn zeta.
  destruct (ipam.UpdateAddresses ipPoolMgr _) as [p' [n [e|]]];
    cbn [fst snd pool calls logged]; by rewrite <- app_assoc.
Qed.

(** The calls of a path are one of [path_logs]. *)
Lemma path_log (ipPoolMgr : ipam.IPPoolManagerInterface) (normal : bool)
    (s : state) :
  exists new : list Call,
    called ((if normal then reconcileNormal ipPoolMgr
             else reconcileDelete ipPoolMgr) s).2 = called s ++ new /\
    new ∈ path_logs.
Proof.
  unfold reconcileDelete, reconcileNormal, invoke_SetFinalizer,
    invoke_UnsetFinalizer, invoke_UpdateAddresses, bind, ret, call, getPool,
    setPool.
  destruct normal;
    repeat first [progress split_pair_eqs | case_match]; log_leaf.
Qed.

(** X10.  A pool that names no cluster is never gated: with the pool
    read, the helper built and the manager created, the pass is the
    Normal path when the deletion timestamp is zero and the Delete path
    otherwise, followed by the patch; no cluster is read, no owner is
    recorded, no pause is tested, and the pool gets no label from the
    controller. *)
Theorem unowned_pool_goes_straight_to_its_path (r : IPPoolReconciler)
    (req : ctrl.Request) (obj : ipamv1.IPPool) (helper : patch.Helper)
    (ipPoolMgr : ipam.IPPoolManagerInterface) :
  client.Get_IPPool (Client r) (ctrl.NamespacedName req) = inl obj ->
  patch.NewHelper obj (Client r) = inl helper ->
  ipamv1.ClusterName (ipamv1.Spec obj) = None ->
  ipam.NewIPPoolManager (ManagerFactory r) obj = inl ipPoolMgr ->
  let pass := Reconcile r req start in
  let path :=
    (if metav1.IsZero (DeletionTimestamp_of obj)
     then reconcileNormal ipPoolMgr
     else reconcileDelete ipPoolMgr)
      (logged Call_NewIPPoolManager (fetched obj)) in
  calls pass.2 = calls path.2 ++ [(Call_Patch, pool path.2)] /\
  pass.1.1 = path.1.1 /\
  pass.1.2 = match patch.Patch helper (Client r) (pool path.2) with
             | Some patchErr => Some patchErr
             | None => path.1.2
             end /\
  (Call_Get_Cluster ∉ called pass.2) /\
  (Call_SetClusterOwnerRef ∉ called pass.2).
Proof.
  intros Hget Hhelper Hname Hmgr pass path.
  assert (Reconcile_body r (fetched obj) = path) as Hbody.
  { rewrite (Reconcile_body_no_owner r (fetched obj) Hname).
    rewrite (Reconcile_manage_dispatch r None (fetched obj) _ ipPoolMgr Hmgr
               (Reconcile_gate_unnamed ipPoolMgr None _ I)).
    subst path. cbn [logged fetched pool].
    by destruct (metav1.IsZero (DeletionTimestamp_of obj)). }
  subst pass. rewrite (Reconcile_fetched r req obj helper Hget Hhelper).
  rewrite Hbody. cbn zeta. cbn [fst snd logged calls].
  split; [done|]. split; [by destruct (patch.Patch _ _ _)|].
  split; [by destruct (patch.Patch _ _ _)|].
  destruct (path_log ipPoolMgr (metav1.IsZero (DeletionTimestamp_of obj))
              (logged Call_NewIPPoolManager (fetched obj)))
    as (new & Hnew & Hin).
  fold path in Hnew. unfold called, logged in *. cbn [calls] in *.
  rewrite fmap_app, Hnew.
  cbv [path_logs] in Hin.
  repeat (apply elem_of_cons in Hin as [->|Hin]);
    [..|by apply elem_of_nil in Hin]; split; compute_done.
Qed.

(** ** The labels, again *)

Lemma set_Labels_back (clusterName : string) (p : ipamv1.IPPool) :
  set_Labels (Labels_of p) (stampLabels clusterName p) = p.
Proof. by destruct p as [[] ? ?]. Qed.

(** X11.  Writing the labels is idempotent and the last write wins:
    writing them for a second cluster name over a first gives the pool
    written for the second alone.  The label map is never nil
    afterwards, and setting the labels back gives back the pool: no
    other field is touched. *)
Theorem stampLabels_last_write_wins (first second : string)
    (p : ipamv1.IPPool) :
  stampLabels second (stampLabels first p) = stampLabels second p /\
  stampLabels first (stampLabels first p) = stampLabels first p /\
  Labels_of (stampLabels first p) ≠ None /\
  set_Labels (Labels_of p) (stampLabels first p) = p.
Proof.
  assert (forall a b,
            stampLabels b (stampLabels a p) = stampLabels b p) as Hwins.
  { intros a b. unfold stampLabels, set_Labels, Labels_of. cbn.
    do 3 f_equal. apply map_eq. intros k.
    rewrite !lookup_insert. repeat case_decide; congruence. }
  split; [apply Hwins|]. split; [apply Hwins|]. split; [done|].
  apply set_Labels_back.
Qed.

(** From the creation of the manager on, a manager that writes nothing
    leaves the pool as it is. *)
Lemma Reconcile_manage_inert (r : IPPoolReconciler)
    (cluster : option clusterv1.Cluster) (s : state) :
  (forall ipPoolMgr,
     ipam.NewIPPoolManager (ManagerFactory r) (pool s) = inl ipPoolMgr ->
     inert ipPoolMgr) ->
  pool (Reconcile_manage r cluster s).2 = pool s.
Proof.
  intros Hinert. unfold Reconcile_manage, bind, getPool, call, ret.
  destruct (ipam.NewIPPoolManager _ _) as [m|err] eqn:Hmgr; [|done].
  destruct (Hinert m eq_refl) as (Hown & Hset & Hunset & Hupd).
  assert (forall s', pool (reconcileDelete m s').2 = pool s') as Hdelete.
  { intros s'. rewrite reconcileDelete_eq. cbn zeta.
    specialize (Hupd (pool s')).
    destruct (ipam.UpdateAddresses m (pool s')) as [p' [n [e|]]];
      cbn [fst snd pool] in *; [done|].
    destruct (Z.eqb n 0); cbn [snd pool]; [|done].
    by rewrite Hunset. }
  assert (forall s', pool (reconcileNormal m s').2 = pool s') as Hnormal.
  { intros s'. rewrite reconcileNormal_eq. cbn zeta.
    specialize (Hupd (ipam.SetFinalizer m (pool s'))).
    destruct (ipam.UpdateAddresses m _) as [p' [n [e|]]];
      cbn [fst snd pool] in *; by rewrite Hupd, Hset. }
  assert (forall s', pool (Reconcile_gate m cluster s').2 = pool s')
    as Hgate.
  { intros s'. unfold Reconcile_gate, invoke_SetClusterOwnerRef, bind,
      getPool, setPool, call, ret.
    destruct (ipamv1.ClusterName _); [|done].
    destruct cluster as [c|]; [|done].
    destruct (negb _); [|done]. cbn [logged pool].
    specialize (Hown c (pool s')).
    destruct (ipam.SetClusterOwnerRef m c (pool s')) as [p1 [e|]];
      cbn [fst snd pool] in *; [done|].
    by destruct (IsPaused c p1). }
  specialize (Hgate (logged Call_NewIPPoolManager s)).
  destruct (Reconcile_gate m cluster _) as [[out|] s2];
    cbn [fst snd pool logged] in *; [done|].
  destruct (negb _); by rewrite ?Hdelete, ?Hnormal.
Qed.

(** X12.  The controller itself writes nothing to the pool but the two
    labels, and those only when the pool names a cluster: on every pass
    whose pool is read and whose helper is built, with managers that
    write nothing, the pool handed to the patch is the pool that was
    read, with the labels written when it names a cluster; finalizers,
    annotations, deletion timestamp, spec and status are as read. *)
Theorem controller_writes_only_the_labels (r : IPPoolReconciler)
    (req : ctrl.Request) (obj : ipamv1.IPPool) (helper : patch.Helper) :
  client.Get_IPPool (Client r) (ctrl.NamespacedName req) = inl obj ->
  patch.NewHelper obj (Client r) = inl helper ->
  (forall p ipPoolMgr,
     ipam.NewIPPoolManager (ManagerFactory r) p = inl ipPoolMgr ->
     inert ipPoolMgr) ->
  let pass := Reconcile r req start in
  last (calls pass.2) = Some (Call_Patch, own_writes obj) /\
  set_Labels (Labels_of obj) (pool pass.2) = obj.
Proof.
  intros Hget Hhelper Hinert pass. subst pass.
  rewrite (Reconcile_fetched r req obj helper Hget Hhelper).
  cbn zeta. cbn [snd logged calls pool].
  assert (pool (Reconcile_body r (fetched obj)).2 = own_writes obj) as ->.
  { rewrite Reconcile_body_at_manager.
    destruct (cluster_at_gate r obj) as [cluster|];
      [rewrite Reconcile_manage_inert by eauto|]; apply pool_at_manager. }
  split; [apply last_snoc|].
  unfold own_writes. destruct (ipamv1.ClusterName (ipamv1.Spec obj)).
  - apply set_Labels_back.
  - by destruct obj as [[] ? ?].
Qed.
End FurtherProperties.

(** ** The classifier and the mappers, again *)

(** X13.  The classifier composes with wrapping.  Wrapping an error
    does not change whether, and after what delay, it is requeued; the
    error the classifier returns is never one it would requeue, so a
    fatal error stays fatal however often it is classified again; and a
    requeue never comes with an error. *)
Theorem checkRequeueError_composes_with_wrapping (e : error)
    (message errMessage errMessage' : string) :
  (checkRequeueError (Some (errors.Wrap e message)) errMessage).1
  = (checkRequeueError (Some e) errMessage).1 /\
  (forall e',
     (checkRequeueError (Some e) errMessage).2 = Some e' ->
     e' = errors.Wrap e errMessage /\
     checkRequeueError (Some e') errMessage'
     = (ctrl.empty, Some (errors.Wrap e' errMessage'))) /\
  (ctrl.Requeue (checkRequeueError (Some e) errMessage).1 = true ->
   (checkRequeueError (Some e) errMessage).2 = None).
Proof.
  unfold checkRequeueError, errors.Wrap. cbn [errors.As].
  destruct (errors.As e) as [d|] eqn:Has; cbn [fst snd].
  - split; [done|]. split; [intros e' He'; discriminate|done].
  - split; [done|]. split; [|intros Hrequeue; discriminate].
    intros e' He'. injection He' as <-. split; [done|].
    cbn [errors.As]. by rewrite Has.
Qed.

(** X14.  A request a mapper emits never has an empty pool name, and its
    scope is empty only when the claim has no scope of its own (and, for
    a pool claim, names none); no object makes both mappers emit. *)
Theorem mapped_requests_name_a_pool (obj : client.Object)
    (req : ctrl.Request) :
  (req ∈ IPClaimToIPPool obj \/ req ∈ IPAddressClaimToIPPool obj ->
   types.Name (ctrl.NamespacedName req) ≠ "") /\
  (forall m3ipc, obj = client.IPClaim m3ipc ->
     req ∈ IPClaimToIPPool obj ->
     types.Namespace (ctrl.NamespacedName req) = "" ->
     metav1.Namespace (ipamv1.ClaimMeta m3ipc) = "" /\
     ipamv1.Namespace (ipamv1.Pool (ipamv1.ClaimSpec m3ipc)) = "") /\
  (forall ipac, obj = client.IPAddressClaim ipac ->
     req ∈ IPAddressClaimToIPPool obj ->
     types.Namespace (ctrl.NamespacedName req)
     = metav1.Namespace (capipamv1.ObjectMeta ipac)) /\
  (IPClaimToIPPool obj = [] \/ IPAddressClaimToIPPool obj = []).
Proof.
  split; [|split; [|split]].
  - intros [Hin|Hin]; destruct obj as [c|c| |]; cbn in Hin;
      try (by apply elem_of_nil in Hin).
    + destruct (String.eqb_spec
                  (ipamv1.Name (ipamv1.Pool (ipamv1.ClaimSpec c))) "")
        as [Heq|Hne]; cbn in Hin; [by apply elem_of_nil in Hin|].
      apply list_elem_of_singleton in Hin. by subst req.
    + destruct (String.eqb_spec
                  (capipamv1.Name (capipamv1.PoolRef (capipamv1.Spec c))) "")
        as [Heq|Hne]; cbn in Hin; [by apply elem_of_nil in Hin|].
      apply list_elem_of_singleton in Hin. by subst req.
  - intros c -> Hin Hempty. cbn in Hin.
    destruct (String.eqb _ "") in Hin; cbn in Hin;
      [by apply elem_of_nil in Hin|].
    apply list_elem_of_singleton in Hin. subst req. cbn in Hempty.
    destruct (String.eqb_spec
                (ipamv1.Namespace (ipamv1.Pool (ipamv1.ClaimSpec c))) "")
      as [Heq|Hne]; [done|]. by destruct Hne.
  - intros c -> Hin. cbn in Hin.
    destruct (String.eqb _ "") in Hin; cbn in Hin;
      [by apply elem_of_nil in Hin|].
    apply list_elem_of_singleton in Hin. by subst req.
  - destruct obj; cbn; auto.
Qed.

(** X15.  The address-claim mapper looks at nothing of the pool
    reference but its name: whatever API group and kind the reference
    gives, also those of another kind of pool, the same request for an
    IPPool of that name in the claim's scope is emitted. *)
Theorem IPAddressClaimToIPPool_ignores_reference_type
    (ipac : capipamv1.IPAddressClaim) (apiGroup : option string)
    (kind : string) :
  IPAddressClaimToIPPool
    (client.IPAddressClaim (with_PoolRef_type apiGroup kind ipac))
  = IPAddressClaimToIPPool (client.IPAddressClaim ipac) /\
  (capipamv1.Name (capipamv1.PoolRef (capipamv1.Spec ipac)) ≠ "" ->
   IPAddressClaimToIPPool
     (client.IPAddressClaim (with_PoolRef_type apiGroup kind ipac))
   = [poolRequest
        (capipamv1.Name (capipamv1.PoolRef (capipamv1.Spec ipac)))
        (metav1.Namespace (capipamv1.ObjectMeta ipac))]).
Proof.
  split; [reflexivity|]. intros Hname.
  unfold IPAddressClaimToIPPool, with_PoolRef_type. cbn.
  by rewrite (eqb_empty_false _ Hname).
Qed.

(** ** Further scenarios *)

(** A request for a pool the store does not hold. *)
Lemma pool_fetch_failure_ends_pass_witness :
  called (Reconcile (H := cluster_api) (reconciler_over P1 [] None 0 None)
            (poolRequest "missing" "ns1") start).2
  = [Call_Get_IPPool] /\
  (Reconcile (H := cluster_api) (reconciler_over P1 [] None 0 None)
     (poolRequest "missing" "ns1") start).1.2 = None.
Proof.
  destruct (pool_fetch_failure_ends_pass (H := cluster_api)
              (reconciler_over P1 [] None 0 None)
              (poolRequest "missing" "ns1") (errorString "not found")
              eq_refl)
    as (Hcalled & _ & _ & Hnil & _).
  split; [exact Hcalled | exact (Hnil eq_refl)].
Defined.

(** P1 behind a client whose scheme does not know the pool. *)
Lemma helper_failure_ends_pass_without_patch_witness :
  (Reconcile (H := cluster_api)
     (reconciler_with (schemelessClient [P1] (errorString "no kind"))
                      (fakeFactory (H := cluster_api) 0 None))
     (request_of P1) start).1
  = (ctrl.empty,
     Some (withMessage (errorString "no kind")
                       "failed to init patch helper")).
Proof.
  destruct (helper_failure_ends_pass_without_patch (H := cluster_api)
              (reconciler_with (schemelessClient [P1] (errorString "no kind"))
                               (fakeFactory (H := cluster_api) 0 None))
              (request_of P1) P1 (errorString "no kind") eq_refl eq_refl)
    as (_ & _ & _ & Hout).
  exact Hout.
Defined.

(** The pool [orphan] with a factory that fails. *)
Lemma factory_failure_fails_pass_witness :
  (Reconcile (H := cluster_api)
     (reconciler_with (fakeClient [orphan] [] None)
                      (failingFactory (errorString "no manager")))
     (request_of orphan) start).1.2
  = Some (withMessage (errorString "no manager")
            "failed to create helper for managing the IP pool").
Proof.
  destruct (factory_failure_fails_pass (H := cluster_api)
              (reconciler_with (fakeClient [orphan] [] None)
                               (failingFactory (errorString "no manager")))
              (request_of orphan) orphan {| patch.beforeObject := orphan |}
              (Some clusterv1.zero) (errorString "no manager")
              eq_refl eq_refl eq_refl eq_refl)
    as (_ & _ & _ & Herr).
  exact Herr.
Defined.

(** The pool [owned] with a manager that refuses the owner with an error
    that carries a requeue delay: the pass fails, without requeue. *)
Lemma owner_ref_error_is_returned_raw_witness :
  (Reconcile (H := cluster_api)
     (reconciler_with (fakeClient [owned] [c1] None)
                      (refusingFactory (H := cluster_api)
                         (RequeueAfterError (time.Second * 5))))
     (request_of owned) start).1
  = (ctrl.empty, Some (RequeueAfterError 5000000000)).
Proof.
  destruct (owner_ref_error_is_returned_raw (H := cluster_api)
              (reconciler_with (fakeClient [owned] [c1] None)
                               (refusingFactory (H := cluster_api)
                                  (RequeueAfterError (time.Second * 5))))
              (request_of owned) owned {| patch.beforeObject := owned |}
              "c1" c1
              (refusingManager (H := cluster_api)
                 (RequeueAfterError (time.Second * 5)))
              (stamped_with "c1" owned)
              (RequeueAfterError (time.Second * 5))
              eq_refl eq_refl eq_refl eq_refl ltac:(discriminate)
              eq_refl eq_refl)
    as (_ & Hres & Herr & _).
  revert Hres Herr.
  destruct (Reconcile _ _ _).1 as [res err]. cbn. by intros -> ->.
Defined.

(** P2 with an update that fails while it reports no allocation. *)
Lemma reconcileDelete_error_keeps_finalizer_witness :
  called (reconcileDelete (manager_of 0 (Some (errorString "boom")))
            (fetched P2)).2
  = [Call_Get_IPPool; Call_NewHelper; Call_UpdateAddresses] /\
  Finalizers_of
    (pool (reconcileDelete (manager_of 0 (Some (errorString "boom")))
             (fetched P2)).2)
  = [finalizer].
Proof.
  destruct (reconcileDelete_error_keeps_finalizer
              (manager_of 0 (Some (errorString "boom"))) (fetched P2)
              P2 0 (errorString "boom") eq_refl)
    as (Hcalled & Hpool & _).
  split; [exact Hcalled|]. by rewrite Hpool.
Defined.

(** P1: no cluster named, the Normal path at once. *)
Lemma unowned_pool_goes_straight_to_its_path_witness :
  called (pass_over P1 [] None 0 None).2
  = [Call_Get_IPPool; Call_NewHelper; Call_NewIPPoolManager;
     Call_SetFinalizer; Call_UpdateAddresses; Call_Patch] /\
  (Call_Get_Cluster ∉ called (pass_over P1 [] None 0 None).2).
Proof.
  destruct (unowned_pool_goes_straight_to_its_path (H := cluster_api)
              (reconciler_over P1 [] None 0 None) (request_of P1) P1
              {| patch.beforeObject := P1 |} (manager_of 0 None)
              eq_refl eq_refl eq_refl eq_refl)
    as (Hcalls & _ & _ & Hno & _).
  split; [|exact Hno].
  unfold called, pass_over. by rewrite Hcalls.
Defined.

Lemma inertManager_inert : inert inertManager.
Proof. by repeat split. Qed.

(** The pool [orphan] with a manager that does nothing: the pool patched
    is the pool read, with the two labels. *)
Lemma controller_writes_only_the_labels_witness :
  last (calls (Reconcile (H := cluster_api)
                 (reconciler_with (fakeClient [orphan] [] None) inertFactory)
                 (request_of orphan) start).2)
  = Some (Call_Patch, stamped_with "gone" orphan).
Proof.
  destruct (controller_writes_only_the_labels (H := cluster_api)
              (reconciler_with (fakeClient [orphan] [] None) inertFactory)
              (request_of orphan) orphan {| patch.beforeObject := orphan |}
              eq_refl eq_refl)
    as (Hlast & Hback).
  { intros p m Hm. injection Hm as <-. apply inertManager_inert. }
  exact Hlast.
Defined.

(** A requeue error wrapped twice is still a requeue. *)
Lemma checkRequeueError_composes_with_wrapping_witness :
  (checkRequeueError
     (Some (errors.Wrap (errors.Wrap (RequeueAfterError 7) "inner") "outer"))
     "Failed to create the missing data").1
  = {| ctrl.Requeue := true; ctrl.RequeueAfter := 7 |}.
Proof.
  destruct (checkRequeueError_composes_with_wrapping
              (errors.Wrap (RequeueAfterError 7) "inner") "outer"
              "Failed to create the missing data" "again")
    as (Hwrap & _).
  by rewrite Hwrap.
Defined.

(** A claim without scope of its own that names a pool without scope is
    mapped to a request without scope. *)
Lemma mapped_requests_name_a_pool_witness :
  types.Name
    (ctrl.NamespacedName (poolRequest "pool-a" "")) ≠ "" /\
  IPAddressClaimToIPPool (client.IPClaim (claim_of "" "pool-a" "")) = [].
Proof.
  destruct (mapped_requests_name_a_pool
              (client.IPClaim (claim_of "" "pool-a" ""))
              (poolRequest "pool-a" ""))
    as (Hname & _ & _ & [Hnone|Hnone]).
  - discriminate Hnone.
  - split; [|exact Hnone]. apply Hname. left.
    by apply list_elem_of_singleton.
Defined.

(** An address claim that refers to a pool of another kind. *)
Lemma IPAddressClaimToIPPool_ignores_reference_type_witness :
  IPAddressClaimToIPPool
    (client.IPAddressClaim
       (with_PoolRef_type (Some "ipam.cluster.x-k8s.io") "InClusterIPPool"
          (address_claim_of "ns1" "pool-a")))
  = [poolRequest "pool-a" "ns1"].
Proof.
  destruct (IPAddressClaimToIPPool_ignores_reference_type
              (address_claim_of "ns1" "pool-a")
              (Some "ipam.cluster.x-k8s.io") "InClusterIPPool")
    as (_ & Hreq).
  apply Hreq. discriminate.
Defined.

(** ** The deletion gate, for the whole pass *)

Section DeletionGate.
Context `{Imports}.

(** The gate appends at most the call that records the owner. *)
Lemma Reconcile_gate_log (ipPoolMgr : ipam.IPPoolManagerInterface)
    (cluster : option clusterv1.Cluster) (s : state) :
  called (Reconcile_gate ipPoolMgr cluster s).2 = called s \/
  called (Reconcile_gate ipPoolMgr cluster s).2
  = called s ++ [Call_SetClusterOwnerRef].
Proof.
  unfold Reconcile_gate, invoke_SetClusterOwnerRef, bind, getPool, setPool,
    call, ret.
  destruct (ipamv1.ClusterName _); [|by left].
  destruct cluster as [c|]; [|by left].
  destruct (negb _); [|by left]. right.
  cbn [logged pool].
  destruct (ipam.SetClusterOwnerRef ipPoolMgr c (pool s)) as [p1 [e|]];
    cbn [pool]; [|destruct (IsPaused c p1)];
    unfold called, logged; cbn [snd calls]; by rewrite fmap_app.
Qed.

(** Before the manager is created no method of a manager is called. *)
Lemma no_finalizer_call_at_manager (obj : ipamv1.IPPool) (c : Call) :
  is_manager_call c = true -> c ∉ called (at_manager obj).
Proof.
  intros Hc. unfold at_manager.
  destruct (ipamv1.ClusterName (ipamv1.Spec obj)); cbn;
    destruct c; first [discriminate Hc | compute_done].
Qed.

(** C1, amended.  On every pass whose pool is read and whose helper is
    built, that is not ended by the read of the cluster, has its
    manager, is let through by the gate and finds the deletion
    timestamp set, when [UpdateAddresses] returns a count and no error:
    [UnsetFinalizer] is called in the pass if and only if the count is
    zero, and then the pool patched is the pool with the finalizer
    unset; for a nonzero count [UnsetFinalizer] is not called and the
    pool patched is the pool as [UpdateAddresses] left it.  The pass
    returns the empty result, and its error is the error of the
    deferred patch alone: none when the patch succeeds, the patch error
    when it fails. *)
Theorem deleting_pass_unsets_finalizer_iff_no_allocation
    (r : IPPoolReconciler) (req : ctrl.Request) (obj : ipamv1.IPPool)
    (helper : patch.Helper) (cluster : option clusterv1.Cluster)
    (ipPoolMgr : ipam.IPPoolManagerInterface) (s2 : state)
    (p' : ipamv1.IPPool) (allocationsNb : Z) :
  client.Get_IPPool (Client r) (ctrl.NamespacedName req) = inl obj ->
  patch.NewHelper obj (Client r) = inl helper ->
  cluster_at_gate r obj = Some cluster ->
  ipam.NewIPPoolManager (ManagerFactory r) (own_writes obj) = inl ipPoolMgr ->
  Reconcile_gate ipPoolMgr cluster
    (logged Call_NewIPPoolManager (at_manager obj)) = (None, s2) ->
  metav1.IsZero (DeletionTimestamp_of (pool s2)) = false ->
  ipam.UpdateAddresses ipPoolMgr (pool s2) = (p', (allocationsNb, None)) ->
  let pass := Reconcile r req start in
  Call_UpdateAddresses ∈ called pass.2 /\
  (Call_UnsetFinalizer ∈ called pass.2 <-> allocationsNb = 0) /\
  (allocationsNb = 0 -> pool pass.2 = ipam.UnsetFinalizer ipPoolMgr p') /\
  (allocationsNb ≠ 0 ->
     (Call_UnsetFinalizer ∉ called pass.2) /\ pool pass.2 = p') /\
  last (calls pass.2) = Some (Call_Patch, pool pass.2) /\
  pass.1.1 = ctrl.empty /\
  pass.1.2 = patch.Patch helper (Client r) (pool pass.2) /\
  (patch.Patch helper (Client r) (pool pass.2) = None ->
     pass.1 = (ctrl.empty, None)).
Proof.
  intros Hget Hhelper Hcluster Hmgr Hgate Hdel Hupd pass.
  assert (Call_UnsetFinalizer ∉ called s2 ++ [Call_UpdateAddresses])
    as Hbefore.
  { pose proof (Reconcile_gate_log ipPoolMgr cluster
                  (logged Call_NewIPPoolManager (at_manager obj))) as Hlog.
    rewrite Hgate in Hlog. cbn [snd] in Hlog.
    pose proof (no_finalizer_call_at_manager obj Call_UnsetFinalizer eq_refl)
      as Hno.
    unfold called, logged in Hlog. cbn [calls] in Hlog.
    rewrite fmap_app in Hlog. cbn [fmap list_fmap fst] in Hlog.
    fold (called (at_manager obj)) in Hlog. fold (called s2) in Hlog.
    destruct Hlog as [-> | ->];
      rewrite !not_elem_of_app; repeat split; try done; compute_done. }
  assert (Reconcile_body r (fetched obj) = reconcileDelete ipPoolMgr s2)
    as Hbody.
  { rewrite Reconcile_body_at_manager, Hcluster.
    rewrite <- pool_at_manager in Hmgr.
    rewrite (Reconcile_manage_dispatch r cluster (at_manager obj) s2
               ipPoolMgr Hmgr Hgate).
    by rewrite Hdel. }
  subst pass. rewrite (Reconcile_fetched r req obj helper Hget Hhelper).
  rewrite Hbody, reconcileDelete_eq, Hupd. cbn zeta.
  destruct (Z.eqb_spec allocationsNb 0) as [Hz|Hnz];
    unfold called, logged in *; cbn [fst snd pool calls];
    rewrite !fmap_app; cbn [fmap list_fmap fst]; fold (called s2) in *.
  - split; [rewrite !elem_of_app; left; left; right; compute_done|].
    split; [split; [done|]; intros _; rewrite !elem_of_app; left; right;
            compute_done|].
    split; [done|]. split; [done|].
    split; [apply last_snoc|].
    by destruct (patch.Patch helper (Client r) _).
  - assert (Call_UnsetFinalizer
            ∉ (called s2 ++ [Call_UpdateAddresses]) ++ [Call_Patch])
      as Hnone.
    { rewrite not_elem_of_app. split; [exact Hbefore|compute_done]. }
    split; [rewrite !elem_of_app; left; right; compute_done|].
    split; [split; [intros Hin; by destruct Hnone|done]|].
    split; [done|]. split; [done|].
    split; [apply last_snoc|].
    by destruct (patch.Patch helper (Client r) _).
Qed.
End DeletionGate.

(** The pool [orphan] with two addresses allocated and a patch the store
    accepts: the finalizer stays, and the pass returns the empty result
    and no error. *)
Lemma deleting_pass_unsets_finalizer_iff_no_allocation_witness :
  (Call_UnsetFinalizer ∉ called (orphan_pass None).2) /\
  Finalizers_of (pool (orphan_pass None).2) = [finalizer] /\
  (orphan_pass None).1 = (ctrl.empty, None).
Proof.
  destruct (deleting_pass_unsets_finalizer_iff_no_allocation
              (H := cluster_api)
              (reconciler_over orphan [] None 2 None) (request_of orphan)
              orphan {| patch.beforeObject := orphan |}
              (Some clusterv1.zero) (manager_of 2 None)
              (logged Call_NewIPPoolManager
                 (at_manager (H := cluster_api) orphan))
              (stamped_with "gone" orphan) 2
              eq_refl eq_refl eq_refl eq_refl eq_refl eq_refl eq_refl)
    as (_ & _ & _ & Hnz & _ & _ & _ & Hout).
  destruct (Hnz ltac:(discriminate)) as [Hno Hpool].
  split; [exact Hno|]. split; [|exact (Hout eq_refl)].
  unfold orphan_pass, pass_over. by rewrite Hpool.
Defined.

(** C1 as stated fails: the pool [orphan] is marked for deletion, the
    gate lets the pass through, [UpdateAddresses] returns two
    allocations and no error, and the store refuses the patch of the
    labels; the pass does not unset the finalizer, and it returns the
    error of the patch, not no error. *)
Lemma deleting_pass_returns_the_patch_error :
  metav1.IsZero (DeletionTimestamp_of orphan) = false /\
  ipam.UpdateAddresses (manager_of 2 None) (stamped_with "gone" orphan)
  = (stamped_with "gone" orphan, (2, None)) /\
  called (orphan_pass (Some conflict)).2
  = [Call_Get_IPPool; Call_NewHelper; Call_Get_Cluster;
     Call_NewIPPoolManager; Call_UpdateAddresses; Call_Patch] /\
  (orphan_pass (Some conflict)).1 = (ctrl.empty, Some conflict) /\
  (orphan_pass (Some conflict)).1.2 ≠ None.
Proof.
  split; [reflexivity|]. split; [reflexivity|].
  split; [by vm_compute|]. split; [by vm_compute|]. by vm_compute.
Qed.
